(** * BB-Bot: the TWAP engine and the exchange gateway

    A shallow embedding of [src/twap.ts] (class [TWAPStrategy]), of the
    gateway class [BluefinClient] and of the configuration validator, and
    the properties of the specification that are stated about them;
    then the requests of the gateway, the completion test of the monitor
    of [src/bot.ts] and the keystore loader of [src/wallet.ts], with
    further properties of the code over whole runs of the engine.

    Modelling conventions, used throughout:

    - A JavaScript number is an exact rational, or one of the special
      values NaN, +Infinity and -Infinity.  Binary rounding of IEEE
      doubles, overflow and the sign of zero are not represented: every
      statement below is about decimal arithmetic carried out exactly.
    - A JavaScript string is a [string] of 8-bit characters; the amounts
      kept by the engine are such strings, read with [parseFloat] and
      written with [toFixed], as in the source.
    - An exception is a value [Throw e] of the type [result].
    - The array [state.orders] lives in a store of arrays and the state
      record holds a reference to it, because [getState] copies that
      reference.
    - One call of [executeOrder] is one uninterrupted step; what the
      gateway answers during the step is an argument of the step.
    - What a request of the gateway gets from the network is an argument
      of the request, one answer per attempt; what [loadKeystore] takes
      from the platform (the environment, the file system, the parser and
      the key library) is a record of functions. *)

From Stdlib Require Import ZArith QArith Qround Qabs Lqa Lia.
From Stdlib Require Import Ascii String List Bool.
From stdpp Require Import base list.

Import ListNotations.
Local Open Scope string_scope.
Local Open Scope list_scope.
Local Open Scope Z_scope.

(** ** JavaScript numbers *)

Module JS.

Inductive number : Type :=
| NaN : number
| Num : Q -> number
| Inf : bool -> number.   (* [Inf true] is -Infinity *)

Definition of_Z (z : Z) : number := Num (inject_Z z).

Definition isNaN (x : number) : bool :=
  match x with NaN => true | _ => false end.

Definition Qltb (a b : Q) : bool := negb (Qle_bool b a).

(** [x < y]; false as soon as one side is NaN. *)
Definition lt (x y : number) : bool :=
  match x, y with
  | NaN, _ | _, NaN => false
  | Num a, Num b => Qltb a b
  | Num _, Inf s => negb s
  | Inf s, Num _ => s
  | Inf s, Inf t => s && negb t
  end.

(** [x <= y]. *)
Definition le (x y : number) : bool :=
  match x, y with
  | NaN, _ | _, NaN => false
  | Num a, Num b => Qle_bool a b
  | Num _, Inf s => negb s
  | Inf s, Num _ => s
  | Inf s, Inf t => s || negb t
  end.

Definition gt (x y : number) : bool := lt y x.
Definition ge (x y : number) : bool := le y x.

(** [x === y] on numbers. *)
Definition eqb (x y : number) : bool :=
  match x, y with
  | Num a, Num b => Qeq_bool a b
  | Inf s, Inf t => Bool.eqb s t
  | _, _ => false
  end.

Definition add (x y : number) : number :=
  match x, y with
  | NaN, _ | _, NaN => NaN
  | Num a, Num b => Num (a + b)
  | Num _, Inf s | Inf s, Num _ => Inf s
  | Inf s, Inf t => if Bool.eqb s t then Inf s else NaN
  end.

Definition opp (x : number) : number :=
  match x with
  | NaN => NaN
  | Num a => Num (- a)
  | Inf s => Inf (negb s)
  end.

Definition sub (x y : number) : number := add x (opp y).

Definition Qsign_neg (a : Q) : bool := Qltb a 0.

Definition mul (x y : number) : number :=
  match x, y with
  | NaN, _ | _, NaN => NaN
  | Num a, Num b => Num (a * b)
  | Num a, Inf s | Inf s, Num a =>
      if Qeq_bool a 0 then NaN else Inf (xorb s (Qsign_neg a))
  | Inf s, Inf t => Inf (xorb s t)
  end.

(** [x / y].  A zero divisor is taken to be +0. *)
Definition div (x y : number) : number :=
  match x, y with
  | NaN, _ | _, NaN => NaN
  | Num a, Num b =>
      if Qeq_bool b 0
      then (if Qeq_bool a 0 then NaN else Inf (Qsign_neg a))
      else Num (a / b)
  | Num _, Inf _ => Num 0
  | Inf s, Num b => Inf (xorb s (Qsign_neg b))
  | Inf _, Inf _ => NaN
  end.

(** [Math.min(x, y)]. *)
Definition min (x y : number) : number :=
  match x, y with
  | NaN, _ | _, NaN => NaN
  | _, _ => if lt y x then y else x
  end.

(** [Math.floor(x)]. *)
Definition floor (x : number) : number :=
  match x with
  | Num a => Num (inject_Z (Qfloor a))
  | _ => x
  end.

(** Truthiness of a number: [!x] holds for 0 and NaN. *)
Definition truthy_number (x : number) : bool :=
  match x with
  | NaN => false
  | Num a => negb (Qeq_bool a 0)
  | Inf _ => true
  end.

(** Truthiness of a string, and of an optional string property. *)
Definition truthy (s : string) : bool :=
  match s with EmptyString => false | _ => true end.

Definition truthy_opt (o : option string) : bool :=
  match o with Some s => truthy s | None => false end.

(** *** Decimal numerals *)

Definition is_digit (c : ascii) : bool :=
  let n := N_of_ascii c in ((48 <=? n) && (n <=? 57))%N.

Definition digit_val (c : ascii) : Z := Z.of_N (N_of_ascii c) - 48.

Definition digit_char (d : Z) : ascii := ascii_of_N (Z.to_N (d + 48)).

(** White space that [parseFloat] and [BigInt] skip (the 8-bit part of
    StrWhiteSpaceChar). *)
Definition is_space (c : ascii) : bool :=
  let n := N_of_ascii c in
  (((9 <=? n) && (n <=? 13)) || (n =? 32) || (n =? 160))%N.

Fixpoint skip_spaces (s : string) : string :=
  match s with
  | String c s' => if is_space c then skip_spaces s' else s
  | EmptyString => s
  end.

(** Reads the longest run of decimal digits at the head of [s]: the value
    read (on top of [acc]), how many digits were read (on top of [n]) and
    what follows them. *)
Fixpoint read_digits (s : string) (acc : Z) (n : nat) : Z * nat * string :=
  match s with
  | String c s' =>
      if is_digit c then read_digits s' (10 * acc + digit_val c) (S n)
      else (acc, n, s)
  | EmptyString => (acc, n, s)
  end.

Definition read_sign (s : string) : bool * string :=
  match s with
  | String "-" s' => (true, s')
  | String "+" s' => (false, s')
  | _ => (false, s)
  end.

(** An exponent part counts only when it is complete: [e] or [E], an
    optional sign and at least one digit. *)
Definition read_exponent (s : string) : Z :=
  match s with
  | String c s' =>
      if (Ascii.eqb c "e" || Ascii.eqb c "E")%bool then
        let (neg, s'') := read_sign s' in
        let '(v, n, _) := read_digits s'' 0 0 in
        match n with
        | O => 0
        | _ => if neg then - v else v
        end
      else 0
  | EmptyString => 0
  end.

Definition pow10 (z : Z) : Q :=
  if 0 <=? z then inject_Z (10 ^ z) else / inject_Z (10 ^ (- z)).

(** The digits, the fraction and the exponent of a decimal literal at the
    head of [s]; NaN when there is no digit. *)
Definition read_decimal (neg : bool) (s : string) : number :=
  let '(ip, ni, s2) := read_digits s 0 0 in
  let '(fp, nf, s3) :=
    match s2 with
    | String "." s2' => read_digits s2' ip 0
    | _ => (ip, O, s2)
    end in
  match (ni + nf)%nat with
  | O => NaN
  | _ =>
      let e := read_exponent s3 in
      let m := if neg then - fp else fp in
      Num (inject_Z m * pow10 (e - Z.of_nat nf))
  end.

(** [parseFloat(s)]: the longest prefix of the trimmed string that is a
    decimal literal; NaN when there is none. *)
Definition parseFloat (s : string) : number :=
  let (neg, s1) := read_sign (skip_spaces s) in
  if String.prefix "Infinity" s1 then Inf neg else read_decimal neg s1.

(** The decimal digits of a natural number, most significant first. *)
Fixpoint digits_aux (fuel : nat) (n : Z) (acc : string) : string :=
  match fuel with
  | O => acc
  | S fuel' =>
      let acc' := String (digit_char (n mod 10)) acc in
      if n / 10 =? 0 then acc' else digits_aux fuel' (n / 10) acc'
  end.

Definition digits_of (n : Z) : string :=
  digits_aux (S (Z.to_nat (Z.log2 n))) n "".

(** Exactly [d] digits of [n], with leading zeros. *)
Fixpoint fixed_digits (d : nat) (n : Z) (acc : string) : string :=
  match d with
  | O => acc
  | S d' => fixed_digits d' (n / 10) (String (digit_char (n mod 10)) acc)
  end.

(** The integer [n] for which [n / 10^d] is closest to [|q|], the larger
    one of two. *)
Definition round_units (d : nat) (q : Q) : Z :=
  Qfloor (Qabs q * inject_Z (10 ^ Z.of_nat d) + (1 # 2)).

(** [x.toFixed(d)], in plain decimal notation for every magnitude. *)
Definition toFixed (d : nat) (x : number) : string :=
  match x with
  | NaN => "NaN"
  | Inf false => "Infinity"
  | Inf true => "-Infinity"
  | Num q =>
      let n := round_units d q in
      let p := 10 ^ Z.of_nat d in
      ((if Qltb q 0 then "-" else "") ++
       digits_of (n / p) ++
       match d with
       | O => ""
       | _ => String "." (fixed_digits d (n mod p) "")
       end)%string
  end.

(** [BigInt(s)]: [None] is the SyntaxError.  Only decimal literals are
    read; the radix prefixes 0x, 0o and 0b are refused. *)
Definition parseBigInt (s : string) : option Z :=
  let s0 := skip_spaces s in
  match s0 with
  | EmptyString => Some 0
  | _ =>
      let (neg, s1) := read_sign s0 in
      let '(v, n, s2) := read_digits s1 0 0 in
      match n, skip_spaces s2 with
      | S _, EmptyString => Some (if neg then - v else v)
      | _, _ => None
      end
  end.

(** [n.toString()] of a BigInt. *)
Definition bigint_toString (n : Z) : string :=
  if n <? 0 then String "-" (digits_of (- n)) else digits_of n.

(** [s.toLowerCase()] on the letters A to Z. *)
Definition lower_char (c : ascii) : ascii :=
  let n := N_of_ascii c in
  if ((65 <=? n) && (n <=? 90))%N then ascii_of_N (n + 32) else c.

Fixpoint toLowerCase (s : string) : string :=
  match s with
  | String c s' => String (lower_char c) (toLowerCase s')
  | EmptyString => EmptyString
  end.

(** [s.includes(t)]. *)
Fixpoint includes (s t : string) : bool :=
  String.prefix t s ||
  match s with
  | String _ s' => includes s' t
  | EmptyString => false
  end.

End JS.

(** ** Exceptions *)

(** [Error]: the message of the exception. *)
Definition Error : Type := string.

Inductive result (A : Type) : Type :=
| Ok : A -> result A
| Throw : Error -> result A.
Arguments Ok {A} _.
Arguments Throw {A} _.

(** ** The interfaces of [types.ts] *)

Module TWAPConfig.
Record t : Type := mk {
  pair : string;
  totalAmount : string;
  duration : JS.number;
  interval : JS.number;
  slippageTolerance : JS.number;
  minOrderSize : string;
  maxOrderSize : string
}.
End TWAPConfig.

Inductive OrderStatus : Type := pending | filled | partial | failed.

Module OrderExecution.
Record t : Type := mk {
  orderId : string;
  timestamp : JS.number;
  size : string;
  price : string;
  status : OrderStatus;
  filledSize : option string;
  averagePrice : option string
}.
End OrderExecution.

(** A reference to an array of order records. *)
Definition ref : Type := nat.

Module TWAPState.
Record t : Type := mk {
  totalAmount : string;
  remainingAmount : string;
  executedAmount : string;
  orders : ref;
  startTime : JS.number;
  endTime : JS.number;
  averageExecutionPrice : option string
}.
End TWAPState.

Inductive Side : Type := buy | sell.
Inductive OrderType : Type := limit | market.

Module BluefinOrderParams.
Record t : Type := mk {
  pair : string;
  side : Side;
  size : string;
  price : option string;
  orderType : OrderType
}.
End BluefinOrderParams.

Module BluefinOrderResponse.
Record t : Type := mk {
  orderId : string;
  status : string;
  filledSize : option string;
  averagePrice : option string
}.
End BluefinOrderResponse.

(** ** [config.ts]: validation of the configuration *)

Definition validateTWAPConfig (config : TWAPConfig.t) : result unit :=
  if negb (JS.truthy (TWAPConfig.pair config)) then
    Throw "TWAP config: pair is required"
  else if negb (JS.truthy (TWAPConfig.totalAmount config))
          || JS.le (JS.parseFloat (TWAPConfig.totalAmount config)) (JS.of_Z 0) then
    Throw "TWAP config: totalAmount must be a positive number"
  else if negb (JS.truthy_number (TWAPConfig.duration config))
          || JS.le (TWAPConfig.duration config) (JS.of_Z 0) then
    Throw "TWAP config: duration must be a positive number"
  else if negb (JS.truthy_number (TWAPConfig.interval config))
          || JS.le (TWAPConfig.interval config) (JS.of_Z 0) then
    Throw "TWAP config: interval must be a positive number"
  else if JS.gt (TWAPConfig.interval config) (TWAPConfig.duration config) then
    Throw "TWAP config: interval cannot be greater than duration"
  else if JS.lt (TWAPConfig.slippageTolerance config) (JS.of_Z 0)
          || JS.gt (TWAPConfig.slippageTolerance config) (JS.of_Z 1) then
    Throw "TWAP config: slippageTolerance must be between 0 and 1"
  else if negb (JS.truthy (TWAPConfig.minOrderSize config))
          || JS.le (JS.parseFloat (TWAPConfig.minOrderSize config)) (JS.of_Z 0) then
    Throw "TWAP config: minOrderSize must be a positive number"
  else if negb (JS.truthy (TWAPConfig.maxOrderSize config))
          || JS.le (JS.parseFloat (TWAPConfig.maxOrderSize config)) (JS.of_Z 0) then
    Throw "TWAP config: maxOrderSize must be a positive number"
  else if JS.gt (JS.parseFloat (TWAPConfig.minOrderSize config))
                (JS.parseFloat (TWAPConfig.maxOrderSize config)) then
    Throw "TWAP config: minOrderSize cannot be greater than maxOrderSize"
  else Ok tt.

(** ** [bluefin-client.ts]: the gateway *)

Module BluefinClient.

Definition DECIMALS : Z := 18.
Definition DECIMAL_MULTIPLIER : Z := 10 ^ DECIMALS.

Definition maxRetries : nat := 3.
Definition retryDelay : Z := 1000.

(** [BigInt(x)] of a number: a RangeError unless [x] is an integer. *)
Definition toBigInt (x : JS.number) : result Z :=
  match x with
  | JS.Num v =>
      if Qeq_bool v (inject_Z (Qfloor v)) then Ok (Qfloor v)
      else Throw "RangeError: not an integer"
  | _ => Throw "RangeError: not an integer"
  end.

Definition toBluefinAmount (amount : string) : result string :=
  let amountFloat := JS.parseFloat amount in
  if JS.isNaN amountFloat || JS.lt amountFloat (JS.of_Z 0) then
    Throw ("Invalid amount: " ++ amount)%string
  else
    match toBigInt (JS.floor (JS.mul amountFloat (JS.of_Z DECIMAL_MULTIPLIER))) with
    | Ok amountBigInt => Ok (JS.bigint_toString amountBigInt)
    | Throw e => Throw e
    end.

(** The result is the number that the returned string denotes; the last
    step of the source, [amountFloat.toString()], is not unfolded. *)
Definition fromBluefinAmount (amount : string) : result JS.number :=
  match JS.parseBigInt amount with
  | Some amountBigInt =>
      Ok (JS.div (JS.of_Z amountBigInt) (JS.of_Z DECIMAL_MULTIPLIER))
  | None => Throw "SyntaxError: Cannot convert to a BigInt"
  end.

Definition retryableMessages : list string :=
  [ "network"; "timeout"; "ECONNRESET"; "ETIMEDOUT"; "ENOTFOUND";
    "rate limit"; "503"; "502"; "500" ].

Definition isRetryableError (error : Error) : bool :=
  let errorMessage := JS.toLowerCase error in
  existsb (fun msg => JS.includes errorMessage msg) retryableMessages.

(** What [executeWithRetry] does that can be seen from outside: it calls
    [fn], and it sleeps. *)
Inductive RetryEvent : Type :=
| Call : nat -> RetryEvent     (* the attempt counter at the call *)
| Sleep : Z -> RetryEvent.     (* milliseconds *)

(** The loop of [executeWithRetry], with [budget] iterations left.  [fn k]
    is what the wrapped call answers when it is invoked at attempt [k]. *)
Fixpoint retryLoop {T : Type} (fn : nat -> result T) (budget attempt : nat)
    (lastError : option Error) (log : list RetryEvent)
    : result T * list RetryEvent :=
  match budget with
  | O =>
      (Throw (match lastError with Some e => e | None => "Unknown error" end), log)
  | S budget' =>
      match fn attempt with
      | Ok v => (Ok v, log ++ [Call attempt])
      | Throw e =>
          let isRetryable := isRetryableError e in
          if negb isRetryable || (attempt =? maxRetries - 1)%nat then
            (Throw e, log ++ [Call attempt])
          else
            let delay := retryDelay * 2 ^ Z.of_nat attempt in
            retryLoop fn budget' (S attempt) (Some e)
                      (log ++ [Call attempt; Sleep delay])
      end
  end.

Definition executeWithRetry {T : Type} (fn : nat -> result T)
    : result T * list RetryEvent :=
  retryLoop fn maxRetries 0%nat None [].

(** *** The requests *)

(** The body of an answer of the venue, as far as the client reads it: a
    property that is present is a string. *)
Module ApiBody.
Record t : Type := mk {
  orderId : option string;
  status : option string;
  filledSize : option string;
  averagePrice : option string;
  price : option string
}.
End ApiBody.

(** What one request gets: [fetch] (or the reading of the answer) rejects,
    the answer is not ok and has a status and a text, or it is ok and has a
    body. *)
Inductive HttpAnswer : Type :=
| Rejected : Error -> HttpAnswer
| NotOk : Z -> string -> HttpAnswer
| Body : ApiBody.t -> HttpAnswer.

(** [callBluefinAPI(endpoint, options)], given what the request gets. *)
Definition callBluefinAPI (answer : HttpAnswer) : result ApiBody.t :=
  match answer with
  | Rejected e => Throw e
  | NotOk status errorText =>
      Throw ("Bluefin API error: " ++ JS.bigint_toString status ++ " " ++ errorText)%string
  | Body response => Ok response
  end.

(** [x || d] on an optional string. *)
Definition orElse (x : option string) (d : string) : string :=
  match x with
  | Some s => if JS.truthy s then s else d
  | None => d
  end.

(** The object [orderPayload] of [placeOrder]. *)
Module OrderPayload.
Record t : Type := mk {
  pair : string;
  side : Side;
  size : string;
  orderType : OrderType;
  price : option string
}.
End OrderPayload.

(** The first lines of [placeOrder]: the amounts are converted before any
    request is made. *)
Definition orderPayload (params : BluefinOrderParams.t) : result OrderPayload.t :=
  match toBluefinAmount (BluefinOrderParams.size params) with
  | Throw e => Throw e
  | Ok sizeInDecimals =>
      let build (priceInDecimals : option string) :=
        OrderPayload.mk (BluefinOrderParams.pair params)
          (BluefinOrderParams.side params) sizeInDecimals
          (BluefinOrderParams.orderType params)
          (if JS.truthy_opt priceInDecimals then priceInDecimals else None) in
      if JS.truthy_opt (BluefinOrderParams.price params) then
        match toBluefinAmount (orElse (BluefinOrderParams.price params) "") with
        | Throw e => Throw e
        | Ok priceInDecimals => Ok (build (Some priceInDecimals))
        end
      else Ok (build None)
  end.

(** [placeOrder(params)].  [api k] is what the request of attempt [k] gets
    and [clock k] is [Date.now()] at that attempt. *)
Definition placeOrder (clock : nat -> Z) (api : nat -> HttpAnswer)
    (params : BluefinOrderParams.t)
    : result BluefinOrderResponse.t * list RetryEvent :=
  match orderPayload params with
  | Throw e => (Throw e, [])
  | Ok _ =>
      executeWithRetry (fun attempt =>
        match callBluefinAPI (api attempt) with
        | Throw e => Throw e
        | Ok response =>
            Ok (BluefinOrderResponse.mk
                  (orElse (ApiBody.orderId response)
                          ("order_" ++ JS.bigint_toString (clock attempt))%string)
                  (orElse (ApiBody.status response) "pending")
                  (ApiBody.filledSize response)
                  (ApiBody.averagePrice response))
        end)
  end.

(** [getOrderStatus(orderId)]. *)
Definition getOrderStatus (api : nat -> HttpAnswer) (orderId : string)
    : result BluefinOrderResponse.t * list RetryEvent :=
  executeWithRetry (fun attempt =>
    match callBluefinAPI (api attempt) with
    | Throw e => Throw e
    | Ok response =>
        Ok (BluefinOrderResponse.mk
              (orElse (ApiBody.orderId response) orderId)
              (orElse (ApiBody.status response) "unknown")
              (ApiBody.filledSize response)
              (ApiBody.averagePrice response))
    end).

(** [cancelOrder(orderId)]. *)
Definition cancelOrder (api : nat -> HttpAnswer) (orderId : string)
    : result unit * list RetryEvent :=
  executeWithRetry (fun attempt =>
    match callBluefinAPI (api attempt) with
    | Throw e => Throw e
    | Ok _ => Ok tt
    end).

(** [getMarketPrice(pair)].  As for [fromBluefinAmount], the result is the
    number that the returned string denotes. *)
Definition getMarketPrice (api : nat -> HttpAnswer) (pair : string)
    : result JS.number * list RetryEvent :=
  executeWithRetry (fun attempt =>
    match callBluefinAPI (api attempt) with
    | Throw e => Throw e
    | Ok response =>
        if JS.truthy_opt (ApiBody.price response) then
          fromBluefinAmount (orElse (ApiBody.price response) "")
        else Throw "Failed to get market price"
    end).

End BluefinClient.

(** ** [twap.ts]: the TWAP engine *)

Module TWAPStrategy.

(** The arrays allocated so far; a reference is an index in the store. *)
Abbreviation Store := (list (list OrderExecution.t)).

Definition alloc (h : Store) : ref * Store := (length h, h ++ [[]]).

Definition read (h : Store) (r : ref) : list OrderExecution.t :=
  default [] (h !! r).

(** [array.push(x)] on the array behind [r]. *)
Definition push (h : Store) (r : ref) (x : OrderExecution.t) : Store :=
  <[r := read h r ++ [x]]> h.

(** The fields of the class.  The gateway is the environment of a step
    and the logger has no effect on the state; [intervalTimer] holds the
    period, in milliseconds, of the armed timer. *)
Record t : Type := mk {
  config : TWAPConfig.t;
  state : TWAPState.t;
  intervalTimer : option JS.number;
  isRunning : bool
}.

Record World : Type := mkWorld {
  self : t;
  store : Store
}.

(** A call made on the gateway. *)
Inductive GatewayCall : Type :=
| GetMarketPrice : string -> GatewayCall
| PlaceOrder : BluefinOrderParams.t -> GatewayCall.

(** What the environment supplies during one call of [executeOrder]: the
    clock at the end-time test, the answer of [getMarketPrice], the clock
    at the creation of the record, the answer of [placeOrder]. *)
Record TickEnv : Type := mkEnv {
  clockAtCheck : Z;
  marketPrice : result string;
  clockAtOrder : Z;
  placement : result BluefinOrderResponse.t
}.

Definition initializeState (config : TWAPConfig.t) (now : Z) (h : Store)
    : TWAPState.t * Store :=
  let (r, h') := alloc h in
  (TWAPState.mk
     (TWAPConfig.totalAmount config)
     (TWAPConfig.totalAmount config)
     "0"
     r
     (JS.of_Z now)
     (JS.add (JS.of_Z now) (JS.mul (TWAPConfig.duration config) (JS.of_Z 1000)))
     None,
   h').

(** [new TWAPStrategy(config, bluefinClient, logger)]. *)
Definition create (config : TWAPConfig.t) (now : Z) (h : Store) : World :=
  let (st, h') := initializeState config now h in
  mkWorld (mk config st None false) h'.

Definition calculateNumberOfOrders (config : TWAPConfig.t) : JS.number :=
  JS.floor (JS.div (TWAPConfig.duration config) (TWAPConfig.interval config)).

Definition calculateOrderSize (config : TWAPConfig.t) : result string :=
  let numberOfOrders := calculateNumberOfOrders config in
  if JS.eqb numberOfOrders (JS.of_Z 0) then
    Throw "Duration must be greater than interval"
  else
    let totalAmountFloat := JS.parseFloat (TWAPConfig.totalAmount config) in
    let orderSize := JS.div totalAmountFloat numberOfOrders in
    let minSize := JS.parseFloat (TWAPConfig.minOrderSize config) in
    let maxSize := JS.parseFloat (TWAPConfig.maxOrderSize config) in
    if JS.lt orderSize minSize then Ok (TWAPConfig.minOrderSize config)
    else if JS.gt orderSize maxSize then Ok (TWAPConfig.maxOrderSize config)
    else Ok (JS.toFixed 8 orderSize).

(** [stop()]. *)
Definition stop (w : World) : World :=
  if negb (isRunning (self w)) then w
  else mkWorld (mk (config (self w)) (state (self w)) None false) (store w).

Definition status_eqb (a b : OrderStatus) : bool :=
  match a, b with
  | pending, pending | filled, filled | partial, partial | failed, failed => true
  | _, _ => false
  end.

(** [parseFloat] of an optional property; [parseFloat(undefined)] is NaN. *)
Definition parseFloatOpt (o : option string) : JS.number :=
  match o with Some s => JS.parseFloat s | None => JS.NaN end.

(** The records that [updateAverageExecutionPrice] keeps. *)
Definition isFilledWithPrice (o : OrderExecution.t) : bool :=
  status_eqb (OrderExecution.status o) filled
  && JS.truthy_opt (OrderExecution.filledSize o)
  && JS.truthy_opt (OrderExecution.averagePrice o).

(** One turn of its loop, on the pair [(totalValue, totalSize)]. *)
Definition addOrder (acc : JS.number * JS.number) (order : OrderExecution.t)
    : JS.number * JS.number :=
  let (totalValue, totalSize) := acc in
  if JS.truthy_opt (OrderExecution.filledSize order)
     && JS.truthy_opt (OrderExecution.averagePrice order) then
    let size := parseFloatOpt (OrderExecution.filledSize order) in
    let price := parseFloatOpt (OrderExecution.averagePrice order) in
    (JS.add totalValue (JS.mul size price), JS.add totalSize size)
  else acc.

Definition setAverageExecutionPrice (st : TWAPState.t) (p : option string)
    : TWAPState.t :=
  TWAPState.mk (TWAPState.totalAmount st) (TWAPState.remainingAmount st)
    (TWAPState.executedAmount st) (TWAPState.orders st)
    (TWAPState.startTime st) (TWAPState.endTime st) p.

Definition setAmounts (st : TWAPState.t) (executed remaining : string)
    : TWAPState.t :=
  TWAPState.mk (TWAPState.totalAmount st) remaining executed
    (TWAPState.orders st) (TWAPState.startTime st) (TWAPState.endTime st)
    (TWAPState.averageExecutionPrice st).

Definition updateAverageExecutionPrice (st : TWAPState.t) (h : Store)
    : TWAPState.t :=
  let filledOrders := List.filter isFilledWithPrice (read h (TWAPState.orders st)) in
  if (length filledOrders =? 0)%nat then st
  else
    let (totalValue, totalSize) :=
      fold_left addOrder filledOrders (JS.of_Z 0, JS.of_Z 0) in
    if JS.gt totalSize (JS.of_Z 0) then
      setAverageExecutionPrice st (Some (JS.toFixed 8 (JS.div totalValue totalSize)))
    else st.

(** The threshold below which a remainder is not worth an order. *)
Definition negligible : JS.number := JS.Num (1 # 10000).

(** The size of the next order: [Math.min(parseFloat(calculatedSize),
    remainingFloat).toFixed(8)]. *)
Definition actualSize (calculatedSize : string) (remainingFloat : JS.number)
    : string :=
  JS.toFixed 8 (JS.min (JS.parseFloat calculatedSize) remainingFloat).

(** The test that ends the run on a remainder too small to execute. *)
Definition tooSmall (config : TWAPConfig.t) (orderSize : string)
    (remainingFloat : JS.number) : bool :=
  JS.lt (JS.parseFloat orderSize) (JS.parseFloat (TWAPConfig.minOrderSize config))
  && negb (JS.gt remainingFloat negligible).

(** [slippageAdjustedPrice.toFixed(8)]. *)
Definition limitPrice (config : TWAPConfig.t) (price : string) : string :=
  let currentPrice := JS.parseFloat price in
  let slippageAdjustedPrice :=
    JS.mul currentPrice (JS.add (JS.of_Z 1) (TWAPConfig.slippageTolerance config)) in
  JS.toFixed 8 slippageAdjustedPrice.

Definition orderParams (config : TWAPConfig.t) (orderSize price : string)
    : BluefinOrderParams.t :=
  BluefinOrderParams.mk (TWAPConfig.pair config) buy orderSize
    (Some (limitPrice config price)) limit.

(** The record pushed on the history, after it has been updated from the
    response. *)
Definition recordOf (config : TWAPConfig.t) (orderSize price : string)
    (clock : Z) (response : BluefinOrderResponse.t) : OrderExecution.t :=
  OrderExecution.mk
    (BluefinOrderResponse.orderId response)
    (JS.of_Z clock)
    orderSize
    (limitPrice config price)
    (if String.eqb (BluefinOrderResponse.status response) "filled"
     then filled else pending)
    (BluefinOrderResponse.filledSize response)
    (BluefinOrderResponse.averagePrice response).

(** The amount folded into the totals: the filled size that the venue
    reports, or else the size of the order. *)
Definition foldedAmount (orderSize : string) (response : BluefinOrderResponse.t)
    : JS.number :=
  if JS.truthy_opt (BluefinOrderResponse.filledSize response)
  then parseFloatOpt (BluefinOrderResponse.filledSize response)
  else JS.parseFloat orderSize.

(** What [executeOrder] does once [placeOrder] has answered. *)
Definition foldResponse (w : World) (remainingFloat : JS.number)
    (orderSize price : string) (clock : Z) (response : BluefinOrderResponse.t)
    : World :=
  let this := self w in
  let h := push (store w) (TWAPState.orders (state this))
                (recordOf (config this) orderSize price clock response) in
  let amount := foldedAmount orderSize response in
  let executed := JS.parseFloat (TWAPState.executedAmount (state this)) in
  let st :=
    setAmounts (state this)
      (JS.toFixed 8 (JS.add executed amount))
      (JS.toFixed 8 (JS.sub remainingFloat amount)) in
  mkWorld (mk (config this) (updateAverageExecutionPrice st h)
              (intervalTimer this) (isRunning this)) h.

(** [executeOrder()]: the new world, the calls made on the gateway, and
    whether the call returned or threw. *)
Definition executeOrder (env : TickEnv) (w : World)
    : World * list GatewayCall * result unit :=
  let this := self w in
  let config := config this in
  if negb (isRunning this) then (w, [], Ok tt)
  else
    let remainingFloat := JS.parseFloat (TWAPState.remainingAmount (state this)) in
    if JS.le remainingFloat (JS.of_Z 0) then (stop w, [], Ok tt)
    else if JS.ge (JS.of_Z (clockAtCheck env)) (TWAPState.endTime (state this)) then
      (stop w, [], Ok tt)
    else
      match calculateOrderSize config with
      | Throw e => (w, [], Throw e)
      | Ok calculatedSize =>
          let orderSize := actualSize calculatedSize remainingFloat in
          if tooSmall config orderSize remainingFloat then (stop w, [], Ok tt)
          else
            let getPrice := GetMarketPrice (TWAPConfig.pair config) in
            match marketPrice env with
            | Throw _ => (w, [getPrice], Ok tt)
            | Ok price =>
                let placeOrder := PlaceOrder (orderParams config orderSize price) in
                match placement env with
                | Throw _ => (w, [getPrice; placeOrder], Ok tt)
                | Ok response =>
                    (foldResponse w remainingFloat orderSize price (clockAtOrder env) response,
                     [getPrice; placeOrder], Ok tt)
                end
            end
      end.

(** [start()].  The first order is executed at once; the timer is armed
    when that call has returned. *)
Definition start (now : Z) (env : TickEnv) (w : World)
    : World * list GatewayCall * result unit :=
  let this := self w in
  if isRunning this then (w, [], Ok tt)
  else
    let (st, h) := initializeState (config this) now (store w) in
    let w1 := mkWorld (mk (config this) st (intervalTimer this) true) h in
    match calculateOrderSize (config this) with
    | Throw e => (w1, [], Throw e)
    | Ok _ =>
        match executeOrder env w1 with
        | (w2, calls, Throw e) => (w2, calls, Throw e)
        | (w2, calls, Ok _) =>
            let period := JS.mul (TWAPConfig.interval (config this)) (JS.of_Z 1000) in
            (mkWorld (mk (config (self w2)) (state (self w2)) (Some period)
                         (isRunning (self w2))) (store w2),
             calls, Ok tt)
        end
    end.

(** [getState()]: a new object with the same properties, [{ ...this.state }]. *)
Definition getState (w : World) : TWAPState.t :=
  let st := state (self w) in
  TWAPState.mk (TWAPState.totalAmount st) (TWAPState.remainingAmount st)
    (TWAPState.executedAmount st) (TWAPState.orders st)
    (TWAPState.startTime st) (TWAPState.endTime st)
    (TWAPState.averageExecutionPrice st).

Definition isActive (w : World) : bool := isRunning (self w).

(** The order history of the engine, and the one seen through a snapshot. *)
Definition ordersOf (w : World) : list OrderExecution.t :=
  read (store w) (TWAPState.orders (state (self w))).

(** What [logFinalStats] reports. *)
Record Summary : Type := mkSummary {
  totalOrders : nat;
  filledOrders : nat;
  pendingOrders : nat;
  totalExecuted : string;
  remaining : string;
  averagePrice : option string
}.

(** [logFinalStats()]: the figures of its lines. *)
Definition logFinalStats (w : World) : Summary :=
  let st := state (self w) in
  let filledOrders :=
    List.filter (fun o => status_eqb (OrderExecution.status o) filled) (ordersOf w) in
  let pendingOrders :=
    List.filter (fun o => status_eqb (OrderExecution.status o) pending) (ordersOf w) in
  mkSummary (length (ordersOf w)) (length filledOrders) (length pendingOrders)
    (TWAPState.executedAmount st) (TWAPState.remainingAmount st)
    (if JS.truthy_opt (TWAPState.averageExecutionPrice st)
     then TWAPState.averageExecutionPrice st else None).

(** What can happen to an engine: the three ways its state moves. *)
Inductive Op : Type :=
| Start : Z -> TickEnv -> Op        (* a call of [start()] *)
| Tick : TickEnv -> Op              (* the timer fires *)
| Stop : Op.                        (* a call of [stop()] *)

Definition apply (w : World) (op : Op) : World :=
  match op with
  | Start now env => fst (fst (start now env w))
  | Tick env => fst (fst (executeOrder env w))
  | Stop => stop w
  end.

Definition run (ops : list Op) (w : World) : World := fold_left apply ops w.

End TWAPStrategy.

(** ** [bot.ts]: the monitor of the run *)

Module BuybackBot.

(** The test of the monitor in [start()], on which it reports that the
    execution is completed. *)
Definition seesCompletion (w : TWAPStrategy.World) : bool :=
  let state := TWAPStrategy.getState w in
  negb (TWAPStrategy.isActive w)
  && String.eqb (TWAPState.remainingAmount state) "0".

End BuybackBot.

(** ** [wallet.ts]: the wallet *)

Module SuiWalletManager.

(** The properties of the parsed keystore that [loadKeystore] reads. *)
Record Keystore : Type := mkKeystore {
  privateKey : option string;
  encryptedPrivateKey : option string;
  schema : option string
}.

(** What [loadKeystore] takes from outside: the variable KEYSTORE_DATA,
    the base64 decoding of [Buffer], [readFileSync], [JSON.parse] (up to
    the three properties read), [fromB64] and
    [Ed25519Keypair.fromSecretKey]. *)
Record Platform (Bytes Keypair : Type) : Type := mkPlatform {
  KEYSTORE_DATA : option string;
  decodeBase64 : string -> string;
  readFileSync : string -> result string;
  parseJSON : string -> result Keystore;
  fromB64 : string -> result Bytes;
  fromSecretKey : Bytes -> result Keypair
}.
Arguments mkPlatform {Bytes Keypair} _ _ _ _ _ _.
Arguments KEYSTORE_DATA {Bytes Keypair} _.
Arguments decodeBase64 {Bytes Keypair} _ _.
Arguments readFileSync {Bytes Keypair} _ _.
Arguments parseJSON {Bytes Keypair} _ _.
Arguments fromB64 {Bytes Keypair} _ _.
Arguments fromSecretKey {Bytes Keypair} _ _.

(** The body of the [try] of [loadKeystore]. *)
Definition readKeypair {Bytes Keypair : Type} (os : Platform Bytes Keypair)
    (keystorePath : string) (password : option string) : result Keypair :=
  let keystoreData :=
    if JS.truthy_opt (KEYSTORE_DATA os)
    then Ok (decodeBase64 os (BluefinClient.orElse (KEYSTORE_DATA os) ""))
    else readFileSync os keystorePath in
  match keystoreData with
  | Throw e => Throw e
  | Ok data =>
      match parseJSON os data with
      | Throw e => Throw e
      | Ok keystore =>
          let privateKeyBytes :=
            if JS.truthy_opt (privateKey keystore) then
              fromB64 os (BluefinClient.orElse (privateKey keystore) "")
            else if JS.truthy_opt (encryptedPrivateKey keystore)
                    && JS.truthy_opt password then
              Throw "Encrypted keystore decryption not yet implemented. Please use unencrypted keystore format."
            else if match schema keystore with
                    | Some s => String.eqb s "ED25519"
                    | None => false
                    end && JS.truthy_opt (privateKey keystore) then
              fromB64 os (BluefinClient.orElse (privateKey keystore) "")
            else Throw "Unsupported keystore format" in
          match privateKeyBytes with
          | Throw e => Throw e
          | Ok bytes => fromSecretKey os bytes
          end
      end
  end.

(** [loadKeystore(keystorePath, password)]. *)
Definition loadKeystore {Bytes Keypair : Type} (os : Platform Bytes Keypair)
    (keystorePath : string) (password : option string) : result Keypair :=
  match readKeypair os keystorePath password with
  | Ok keypair => Ok keypair
  | Throw message =>
      if JS.includes message "ENOENT" then
        Throw ("Keystore file not found at: " ++ keystorePath)%string
      else Throw ("Failed to load keystore: " ++ message)%string
  end.

End SuiWalletManager.

(** * The vocabulary of the statements *)

Module Spec.
Import JS BluefinClient TWAPStrategy.

(** ** Numerals *)

Fixpoint all_digits (s : string) : bool :=
  match s with
  | String c s' => is_digit c && all_digits s'
  | EmptyString => true
  end.

(** The value of a string of digits read on top of [acc]. *)
Fixpoint digits_value (s : string) (acc : Z) : Z :=
  match s with
  | String c s' => digits_value s' (10 * acc + digit_val c)
  | EmptyString => acc
  end.

Definition stops (s : string) : Prop :=
  match s with
  | String c _ => is_digit c = false
  | EmptyString => True
  end.

Local Open Scope Q_scope.

(** ** Rounding *)

Definition scale (d : nat) : Q := inject_Z (10 ^ Z.of_nat d).

(** The number that [toFixed d] writes: the nearest multiple of [10^-d],
    the one away from zero of two. *)
Definition round_to (d : nat) (x : Q) : Q :=
  inject_Z (if Qltb x 0 then (- round_units d x)%Z else round_units d x)
  * / scale d.

(** [x] has at most [d] fractional digits. *)
Definition on_grid (d : nat) (x : Q) : Prop :=
  exists k : Z, x == inject_Z k * / scale d.

(** ** The engine *)

(** The numbers of a configuration. *)
Record Figures : Type := mkFigures {
  total : Q;
  seconds : Q;
  every : Q;
  slippage : Q;
  smallest : Q;
  largest : Q
}.

(** A configuration as section 3 of the specification wants it, with the
    numbers that its fields denote. *)
Record Valid (c : TWAPConfig.t) (f : Figures) : Prop := mkValid {
  valid_pair : TWAPConfig.pair c <> "";
  valid_total : parseFloat (TWAPConfig.totalAmount c) = Num (total f);
  valid_total_pos : 0 < total f;
  valid_duration : TWAPConfig.duration c = Num (seconds f);
  valid_interval : TWAPConfig.interval c = Num (every f);
  valid_interval_pos : 0 < every f;
  valid_interval_le : every f <= seconds f;
  valid_slippage : TWAPConfig.slippageTolerance c = Num (slippage f);
  valid_slippage_range : 0 <= slippage f <= 1;
  valid_min : parseFloat (TWAPConfig.minOrderSize c) = Num (smallest f);
  valid_min_pos : 0 < smallest f;
  valid_max : parseFloat (TWAPConfig.maxOrderSize c) = Num (largest f);
  valid_min_le_max : smallest f <= largest f
}.

(** [floor(duration / interval)] and the quotient of the total by it. *)
Definition orderCount (f : Figures) : Z := Qfloor (seconds f / every f).
Definition rawSize (f : Figures) : Q := total f / inject_Z (orderCount f).

Definition acceptedStatus (o : OrderExecution.t) : Prop :=
  OrderExecution.status o = pending \/ OrderExecution.status o = filled.









(** The step got an answer to its order. *)
Definition orderAnswered (env : TickEnv) (w : World) : Prop :=
  snd (fst (executeOrder env w)) <> []
  /\ (exists price, marketPrice env = Ok price)
  /\ (exists response, placement env = Ok response).

(** [remainingFloat] at the start of a step. *)
Definition remainingOf (w : World) : number :=
  parseFloat (TWAPState.remainingAmount (state (self w))).

(** The ways in which one call of [executeOrder] can go. *)
Inductive Outcome (env : TickEnv) (w : World)
    : World -> list GatewayCall -> result unit -> Prop :=
| idle :
    isRunning (self w) = false ->
    Outcome env w w [] (Ok tt)
| ended :
    isRunning (self w) = true ->
    Outcome env w (stop w) [] (Ok tt)
| threw e :
    isRunning (self w) = true ->
    calculateOrderSize (config (self w)) = Throw e ->
    Outcome env w w [] (Throw e)
| priceFailed nominal e :
    isRunning (self w) = true ->
    calculateOrderSize (config (self w)) = Ok nominal ->
    tooSmall (config (self w)) (actualSize nominal (remainingOf w)) (remainingOf w) = false ->
    marketPrice env = Throw e ->
    Outcome env w w [GetMarketPrice (TWAPConfig.pair (config (self w)))] (Ok tt)
| orderFailed nominal price e :
    isRunning (self w) = true ->
    calculateOrderSize (config (self w)) = Ok nominal ->
    tooSmall (config (self w)) (actualSize nominal (remainingOf w)) (remainingOf w) = false ->
    marketPrice env = Ok price ->
    placement env = Throw e ->
    Outcome env w w
      [GetMarketPrice (TWAPConfig.pair (config (self w)));
       PlaceOrder (orderParams (config (self w))
                     (actualSize nominal (remainingOf w)) price)]
      (Ok tt)
| folded nominal price response :
    isRunning (self w) = true ->
    le (remainingOf w) (of_Z 0) = false ->
    calculateOrderSize (config (self w)) = Ok nominal ->
    tooSmall (config (self w)) (actualSize nominal (remainingOf w)) (remainingOf w) = false ->
    marketPrice env = Ok price ->
    placement env = Ok response ->
    Outcome env w
      (foldResponse w (remainingOf w) (actualSize nominal (remainingOf w)) price
         (clockAtOrder env) response)
      [GetMarketPrice (TWAPConfig.pair (config (self w)));
       PlaceOrder (orderParams (config (self w))
                     (actualSize nominal (remainingOf w)) price)]
      (Ok tt).

(** The answer to the price request or to the order is an exception. *)
Definition gatewayFails (env : TickEnv) : Prop :=
  (exists e, marketPrice env = Throw e) \/ (exists e, placement env = Throw e).

(** ** Runs *)

Definition isStart (op : Op) : bool :=
  match op with Start _ _ => true | _ => false end.

(** No operation of the list is a call of [start()]. *)
Definition startFree (ops : list Op) : bool :=
  forallb (fun op => negb (isStart op)) ops.

(** The calls that an operation makes on the gateway. *)
Definition callsOf (w : World) (op : Op) : list GatewayCall :=
  match op with
  | Start now env => snd (fst (start now env w))
  | Tick env => snd (fst (executeOrder env w))
  | Stop => []
  end.

(** The calls made on the gateway in the course of a run, in order. *)
Fixpoint trace (ops : list Op) (w : World) : list GatewayCall :=
  match ops with
  | [] => []
  | op :: ops' => callsOf w op ++ trace ops' (apply w op)
  end.

(** The gateway calls of one step: a price request, followed or not by a
    limit order to buy the pair. *)
Definition stepCalls (c : TWAPConfig.t) (calls : list GatewayCall) : Prop :=
  calls = [GetMarketPrice (TWAPConfig.pair c)]
  \/ exists size price,
       calls = [GetMarketPrice (TWAPConfig.pair c);
                PlaceOrder (BluefinOrderParams.mk (TWAPConfig.pair c) buy size
                              (Some price) limit)].

(** The array of the history has been allocated. *)
Definition WellFormed (w : World) : Prop :=
  (TWAPState.orders (state (self w)) < length (store w))%nat.

(** The record comes from the answer to the order of a step of the run. *)
Definition recorded (ops : list Op) (o : OrderExecution.t) : Prop :=
  exists env response,
    In (Tick env) ops
    /\ placement env = Ok response
    /\ OrderExecution.orderId o = BluefinOrderResponse.orderId response
    /\ OrderExecution.timestamp o = of_Z (clockAtOrder env)
    /\ OrderExecution.filledSize o = BluefinOrderResponse.filledSize response
    /\ OrderExecution.averagePrice o = BluefinOrderResponse.averagePrice response.

(** The configuration with another total amount. *)
Definition withTotalAmount (c : TWAPConfig.t) (totalAmount : string)
    : TWAPConfig.t :=
  TWAPConfig.mk (TWAPConfig.pair c) totalAmount (TWAPConfig.duration c)
    (TWAPConfig.interval c) (TWAPConfig.slippageTolerance c)
    (TWAPConfig.minOrderSize c) (TWAPConfig.maxOrderSize c).

(** The reference of the array of the history. *)
Definition historyRef (w : World) : ref := TWAPState.orders (state (self w)).

(** The engine in the middle of [start()], when it has been marked as
    running and has its new state. *)
Definition restarted (now : Z) (w : World) : World :=
  mkWorld (mk (config (self w))
              (fst (initializeState (config (self w)) now (store w)))
              (intervalTimer (self w)) true)
          (snd (initializeState (config (self w)) now (store w))).

(** The period of the timer that [start()] arms, and the engine with the
    timer armed. *)
Definition period (c : TWAPConfig.t) : number :=
  mul (TWAPConfig.interval c) (of_Z 1000).

Definition armed (p : number) (w : World) : World :=
  mkWorld (mk (config (self w)) (state (self w)) (Some p) (isRunning (self w)))
          (store w).

(** The end time is the start time plus the duration. *)
Definition Timed (c : TWAPConfig.t) (st : TWAPState.t) : Prop :=
  exists t0 : Z,
    TWAPState.startTime st = of_Z t0
    /\ TWAPState.endTime st
       = add (of_Z t0) (mul (TWAPConfig.duration c) (of_Z 1000)).

(** The remaining amount is the configured total or a number written with
    [toFixed(8)]. *)
Definition remainderWritten (c : TWAPConfig.t) (st : TWAPState.t) : Prop :=
  TWAPState.remainingAmount st = TWAPConfig.totalAmount c
  \/ exists x, TWAPState.remainingAmount st = toFixed 8 x.

(** What an operation returns or throws. *)
Definition resultOf (w : World) (op : Op) : result unit :=
  match op with
  | Start now env => snd (start now env w)
  | Tick env => snd (executeOrder env w)
  | Stop => Ok tt
  end.

(** What can be seen of an engine from outside: its configuration,
    whether it is running, the properties of its state and the records of
    its history. *)
Record View : Type := mkView {
  viewConfig : TWAPConfig.t;
  viewActive : bool;
  viewTotal : string;
  viewRemaining : string;
  viewExecuted : string;
  viewOrders : list OrderExecution.t;
  viewStart : number;
  viewEnd : number;
  viewAverage : option string
}.

Definition viewOf (w : World) : View :=
  let st := getState w in
  mkView (config (self w)) (isActive w)
    (TWAPState.totalAmount st) (TWAPState.remainingAmount st)
    (TWAPState.executedAmount st) (ordersOf w)
    (TWAPState.startTime st) (TWAPState.endTime st)
    (TWAPState.averageExecutionPrice st).

(** A running engine has its timer armed, with the period of the
    configuration. *)
Definition Armed (w : World) : Prop :=
  isRunning (self w) = true ->
  intervalTimer (self w) = Some (period (config (self w))).

(** ** The gateway *)


Definition is_upper (c : ascii) : bool :=
  let n := N_of_ascii c in ((65 <=? n) && (n <=? 90))%N.

Fixpoint has_upper (s : string) : bool :=
  match s with
  | String c s' => is_upper c || has_upper s'
  | EmptyString => false
  end.

(** The entries of [retryableMessages] that a message in lower case can
    contain. *)
Definition matchable : list string :=
  [ "network"; "timeout"; "rate limit"; "503"; "502"; "500" ].

(** A wrapped call that is cut by the peer twice and then succeeds. *)
Definition resetTwice (attempt : nat) : result string :=
  match attempt with
  | 0%nat | 1%nat => Throw "read ECONNRESET"
  | _ => Ok "done"
  end.

(** What [executeWithRetry] does when its attempt [n] is the last one: the
    attempts before it, each followed by its sleep, and the attempt. *)
Fixpoint retries (n : nat) : list RetryEvent :=
  match n with
  | O => []
  | S k => retries k ++ [Call k; Sleep (retryDelay * 2 ^ Z.of_nat k)]
  end.

Definition schedule (n : nat) : list RetryEvent := retries n ++ [Call n].

(** The statuses of an answer of the venue that are always retried. *)
Definition serverError (status : Z) : bool :=
  ((status =? 500) || (status =? 502) || (status =? 503))%Z.

End Spec.

(** * Scenarios *)

Module Scenarios.
Import JS TWAPStrategy Spec.

(** The configuration of the example of the specification. *)
Definition hourly : TWAPConfig.t :=
  TWAPConfig.mk "ALKIMI/USDC" "1000" (of_Z 3600) (of_Z 300) (Num (1 # 100))
                "10" "100".

Definition hourlyFigures : Figures :=
  mkFigures 1000 3600 300 (1 # 100) 10 100.

(** One order for the whole amount. *)
Definition single (totalAmount minOrderSize maxOrderSize : string) : TWAPConfig.t :=
  TWAPConfig.mk "ALKIMI/USDC" totalAmount (of_Z 60) (of_Z 60) (Num (1 # 100))
                minOrderSize maxOrderSize.

Definition answer (status : string) (filledSize averagePrice : option string)
    : BluefinOrderResponse.t :=
  BluefinOrderResponse.mk "order_1" status filledSize averagePrice.

(** A step at one second after the start, with the market at 1. *)
Definition answered (response : BluefinOrderResponse.t) : TickEnv :=
  mkEnv 1000 (Ok "1") 1000 (Ok response).

Definition orderRefused : TickEnv :=
  mkEnv 1000 (Ok "1") 1000 (Throw "Bluefin API error: 400 insufficient balance").

Definition priceUnavailable : TickEnv :=
  mkEnv 1000 (Throw "Failed to get market price")
        1000 (Throw "Failed to get market price").

(** The number that a numeral denotes. *)
Definition numberOf (s : string) : Q :=
  match parseFloat s with Num x => x | _ => 0%Q end.

Definition singleFigures (totalAmount minOrderSize maxOrderSize : string)
    : Figures :=
  mkFigures (numberOf totalAmount) 60 60 (1 # 100)
            (numberOf minOrderSize) (numberOf maxOrderSize).

(** The engine after a call of [start()] whose first step got no price:
    running, with nothing executed. *)
Definition started (c : TWAPConfig.t) : World :=
  run [Start 0 priceUnavailable] (create c 0 []).

(** An engine whose single order of 1 was filled up to 0.00005. *)
Definition almostFilled : World :=
  run [Start 0 (answered (answer "partial" (Some "0.99995") (Some "1")))]
      (create (single "1" "0.5" "1") 0 []).

(** The order for a remainder of 5, at a market price of 1. *)
Definition fiveOrder : BluefinOrderParams.t :=
  BluefinOrderParams.mk "ALKIMI/USDC" buy "5.00000000" (Some "1.01000000") limit.

(** A run of the hourly configuration: a fill reported by the venue, an
    order that is not filled yet, a refused order, a stop. *)
Definition hourlyRun : list Op :=
  [ Start 0 (answered (answer "filled" (Some "83.33333333") (Some "1.002")));
    Tick (answered (answer "pending" None None));
    Tick orderRefused;
    Stop ].




(** Two filled orders with their prices. *)
Definition sixty : TickEnv := answered (answer "filled" (Some "60") (Some "1")).
Definition forty : TickEnv := answered (answer "filled" (Some "40") (Some "1.5")).


(** The hourly engine after [hourlyRun], which ends with a stop, and what
    is tried on it afterwards. *)
Definition hourlyStopped : World := run hourlyRun (create hourly 0 []).

Definition afterStop : list Op :=
  [ Tick (answered (answer "pending" None None)); Stop; Tick orderRefused ].

(** A filled first order, then an answered order, a refused one and a
    stop. *)
Definition sixtyThenForty : list Op := [Tick forty; Tick orderRefused; Stop].

(** The first order of the hourly configuration, at a market price of 1. *)
Definition hourlyOrder : BluefinOrderParams.t :=
  BluefinOrderParams.mk "ALKIMI/USDC" buy "83.33333333" (Some "1.01000000") limit.

(** A step when the hour has passed. *)
Definition late : TickEnv :=
  mkEnv 3600000 (Ok "1") 3600000 (Ok (answer "filled" (Some "60") (Some "1"))).

(** A configuration whose interval is longer than its duration. *)
Definition inverted : TWAPConfig.t :=
  TWAPConfig.mk "ALKIMI/USDC" "1000" (of_Z 60) (of_Z 300) (Num (1 # 100))
                "10" "100".

(** A total amount too small for an order. *)
Definition dust : TWAPConfig.t := single "0.00005" "0.001" "1".
Definition dustFigures : Figures := singleFigures "0.00005" "0.001" "1".

(** The venue is down. *)
Definition unavailable (attempt : nat) : BluefinClient.HttpAnswer :=
  BluefinClient.NotOk 503 "Service Unavailable".

Definition fivePayload : BluefinClient.OrderPayload.t :=
  BluefinClient.OrderPayload.mk "ALKIMI/USDC" buy "5000000000000000000" limit
    (Some "1010000000000000000").



(** No price in the answer. *)
Definition unquoted (attempt : nat) : BluefinClient.HttpAnswer :=
  BluefinClient.Body (BluefinClient.ApiBody.mk None None None None None).

(** A platform on which the keystore comes from the environment and holds
    an encrypted key. *)
Definition encrypted : SuiWalletManager.Keystore :=
  SuiWalletManager.mkKeystore None (Some "c2VjcmV0") (Some "ED25519").

Definition railway : SuiWalletManager.Platform string string :=
  SuiWalletManager.mkPlatform (Some "e30=")
    (fun _ => "{}")
    (fun _ => Throw "ENOENT: no such file or directory")
    (fun _ => Ok encrypted)
    (fun s => Ok s)
    (fun b => Ok b).

(** A first order that the venue has not filled yet. *)
Definition pendingRun : list Op := [Start 0 (answered (answer "pending" None None))].

End Scenarios.

(** * Decimal numerals: printing and reading back *)

Module Numerals.
Import JS Spec.

Lemma digit_char_spec d :
  0 <= d < 10 -> is_digit (digit_char d) = true /\ digit_val (digit_char d) = d.
Proof.
  intros H.
  assert (d = 0 \/ d = 1 \/ d = 2 \/ d = 3 \/ d = 4 \/ d = 5 \/ d = 6
          \/ d = 7 \/ d = 8 \/ d = 9) as Hd by lia.
  repeat (destruct Hd as [-> | Hd]; [split; reflexivity |]).
  subst d; split; reflexivity.
Qed.

Lemma read_digits_stops s acc n : stops s -> read_digits s acc n = (acc, n, s).
Proof. destruct s as [| c s]; simpl; [reflexivity |]. intros ->. reflexivity. Qed.

Lemma read_digits_app s1 : forall s2 acc n,
  all_digits s1 = true ->
  read_digits (s1 ++ s2) acc n
  = read_digits s2 (digits_value s1 acc) (n + String.length s1)%nat.
Proof.
  induction s1 as [| c s1 IH]; intros s2 acc n H; simpl in *.
  - now rewrite Nat.add_0_r.
  - apply andb_prop in H as [Hc Hs]. rewrite Hc, IH by assumption.
    now rewrite Nat.add_succ_r.
Qed.

Lemma all_digits_app s1 s2 :
  all_digits (s1 ++ s2) = all_digits s1 && all_digits s2.
Proof.
  induction s1 as [| c s1 IH]; simpl; [reflexivity |].
  now rewrite IH, andb_assoc.
Qed.

Lemma digits_value_app s1 : forall s2 acc,
  digits_value (s1 ++ s2) acc = digits_value s2 (digits_value s1 acc).
Proof. induction s1 as [| c s1 IH]; intros; simpl; [reflexivity | apply IH]. Qed.

Lemma string_app_assoc (s1 s2 s3 : string) :
  ((s1 ++ s2) ++ s3 = s1 ++ (s2 ++ s3))%string.
Proof. induction s1 as [| c s1 IH]; simpl; [reflexivity | now rewrite IH]. Qed.

Lemma string_length_app (s1 s2 : string) :
  String.length (s1 ++ s2) = (String.length s1 + String.length s2)%nat.
Proof. induction s1 as [| c s1 IH]; simpl; [reflexivity | now rewrite IH]. Qed.

(** The accumulator of the two printers is a suffix of the result. *)
Lemma fixed_digits_acc d : forall n acc,
  fixed_digits d n acc = (fixed_digits d n "" ++ acc)%string.
Proof.
  induction d as [| d IH]; intros n acc; simpl; [reflexivity |].
  rewrite IH. rewrite (IH _ (String _ "")).
  now rewrite string_app_assoc.
Qed.

Lemma digits_aux_acc fuel : forall n acc,
  digits_aux fuel n acc = (digits_aux fuel n "" ++ acc)%string.
Proof.
  induction fuel as [| fuel IH]; intros n acc; simpl; [reflexivity |].
  destruct (n / 10 =? 0); [reflexivity |].
  rewrite IH. rewrite (IH _ (String _ "")).
  now rewrite string_app_assoc.
Qed.

Lemma fixed_digits_spec d : forall n acc,
  0 <= n ->
  all_digits (fixed_digits d n "") = true
  /\ String.length (fixed_digits d n "") = d
  /\ digits_value (fixed_digits d n "") acc
     = acc * 10 ^ Z.of_nat d + n mod 10 ^ Z.of_nat d.
Proof.
  induction d as [| d IH]; intros n acc Hn.
  - simpl. rewrite Z.mod_1_r. repeat split; lia.
  - cbn [fixed_digits]. rewrite fixed_digits_acc.
    assert (0 <= n / 10) as Hq by (apply Z.div_pos; lia).
    destruct (IH (n / 10) acc Hq) as (Ha & Hl & Hv).
    destruct (digit_char_spec (n mod 10)) as [Hd Hdv];
      [apply Z.mod_pos_bound; lia |].
    rewrite all_digits_app, string_length_app, digits_value_app, Ha, Hl, Hv.
    cbn [all_digits digits_value String.length]. rewrite Hd, Hdv.
    repeat split; [lia |].
    rewrite Nat2Z.inj_succ, Z.pow_succ_r by lia.
    rewrite (Z.rem_mul_r n 10 (10 ^ Z.of_nat d)) by lia. ring.
Qed.

Lemma digits_aux_spec fuel : forall n,
  0 <= n < 10 ^ Z.of_nat fuel ->
  all_digits (digits_aux fuel n "") = true
  /\ digits_value (digits_aux fuel n "") 0 = n.
Proof.
  induction fuel as [| fuel IH]; intros n Hn.
  - simpl in *. split; [reflexivity | lia].
  - cbn [digits_aux].
    destruct (digit_char_spec (n mod 10)) as [Hd Hdv];
      [apply Z.mod_pos_bound; lia |].
    destruct (Z.eqb_spec (n / 10) 0) as [Hz | Hz].
    + cbn [all_digits digits_value]. rewrite Hd, Hdv. split; [reflexivity |].
      pose proof (Z.div_mod n 10). lia.
    + rewrite digits_aux_acc.
      assert (0 <= n / 10 < 10 ^ Z.of_nat fuel) as Hq.
      { rewrite Nat2Z.inj_succ, Z.pow_succ_r in Hn by lia.
        split; [apply Z.div_pos; lia | apply Z.div_lt_upper_bound; lia]. }
      destruct (IH _ Hq) as [Ha Hv].
      rewrite all_digits_app, digits_value_app, Ha, Hv.
      cbn [all_digits digits_value]. rewrite Hd, Hdv. split; [reflexivity |].
      pose proof (Z.div_mod n 10). lia.
Qed.

Lemma digits_aux_nonempty fuel n acc : digits_aux (S fuel) n acc <> "".
Proof.
  cbn [digits_aux]. destruct (n / 10 =? 0); [discriminate |].
  rewrite digits_aux_acc. destruct (digits_aux fuel (n / 10) ""); discriminate.
Qed.

Lemma digits_of_spec n :
  0 <= n ->
  all_digits (digits_of n) = true
  /\ digits_value (digits_of n) 0 = n
  /\ digits_of n <> "".
Proof.
  intros Hn. unfold digits_of.
  assert (0 <= n < 10 ^ Z.of_nat (S (Z.to_nat (Z.log2 n)))) as Hb.
  { split; [assumption |].
    rewrite Nat2Z.inj_succ, Z2Nat.id by apply Z.log2_nonneg.
    destruct (Z.eq_dec n 0) as [-> | Hz]; [reflexivity |].
    apply Z.lt_le_trans with (2 ^ Z.succ (Z.log2 n)).
    - apply Z.log2_spec; lia.
    - apply Z.pow_le_mono_l. pose proof (Z.log2_nonneg n). lia. }
  destruct (digits_aux_spec _ _ Hb) as [Ha Hv].
  repeat split; [assumption | assumption | apply digits_aux_nonempty].
Qed.

Lemma string_app_empty_r (s : string) : (s ++ "")%string = s.
Proof. induction s as [| c s IH]; simpl; [reflexivity | now rewrite IH]. Qed.

(** A digit is no space, no sign and not the first letter of Infinity. *)
Lemma digit_head c s :
  is_digit c = true ->
  skip_spaces (String c s) = String c s
  /\ read_sign (String c s) = (false, String c s)
  /\ String.prefix "Infinity" (String c s) = false.
Proof.
  intros H.
  destruct c as [[] [] [] [] [] [] [] []];
    try discriminate H; repeat split; reflexivity.
Qed.

Lemma parseFloat_digit c s :
  is_digit c = true -> parseFloat (String c s) = read_decimal false (String c s).
Proof.
  intros H. unfold parseFloat.
  destruct (digit_head c s H) as (-> & -> & ->). reflexivity.
Qed.

Lemma parseFloat_minus_digit c s :
  is_digit c = true ->
  parseFloat (String "-" (String c s)) = read_decimal true (String c s).
Proof.
  intros H. unfold parseFloat.
  change (skip_spaces (String "-" (String c s))) with (String "-" (String c s)).
  cbn [read_sign]. destruct (digit_head c s H) as (_ & _ & ->). reflexivity.
Qed.

Lemma digits_of_head n :
  0 <= n -> exists c s, digits_of n = String c s /\ is_digit c = true.
Proof.
  intros Hn. destruct (digits_of_spec n Hn) as (Ha & _ & Hne).
  destruct (digits_of n) as [| c s]; [congruence |].
  apply andb_prop in Ha as [Hc _]. eauto.
Qed.

(** Reading the digits of [n] gives [n] back and stops where they stop. *)
Lemma read_digits_of n rest :
  0 <= n -> stops rest ->
  exists k, read_digits (digits_of n ++ rest) 0 0 = (n, S k, rest).
Proof.
  intros Hn Hr. destruct (digits_of_spec n Hn) as (Ha & Hv & Hne).
  rewrite read_digits_app, Hv, read_digits_stops by assumption.
  destruct (digits_of n) as [| c s]; [congruence |]. simpl. eauto.
Qed.


End Numerals.

(** * Rounding to a fixed number of fractional digits *)

Module Rounding.
Import JS Spec Numerals.
Local Open Scope Q_scope.

Lemma Qltb_lt a b : Qltb a b = true <-> a < b.
Proof.
  unfold Qltb. rewrite negb_true_iff, <- not_true_iff_false, Qle_bool_iff.
  split; [apply Qnot_le_lt | apply Qlt_not_le].
Qed.

Lemma Qltb_ge a b : Qltb a b = false <-> b <= a.
Proof.
  unfold Qltb. rewrite negb_false_iff, Qle_bool_iff. reflexivity.
Qed.

Lemma scale_pos d : 0 < scale d.
Proof.
  unfold scale. rewrite <- (Zlt_Qlt 0). apply Z.pow_pos_nonneg; lia.
Qed.

Lemma scale_inv d : scale d * / scale d == 1.
Proof. apply Qmult_inv_r. pose proof (scale_pos d). lra. Qed.

Lemma Qfloor_unique (x : Q) (n : Z) :
  inject_Z n <= x -> x < inject_Z n + 1 -> Qfloor x = n.
Proof.
  intros H1 H2.
  pose proof (Qfloor_le x) as F1. pose proof (Qlt_floor x) as F2.
  rewrite inject_Z_plus in F2.
  assert (inject_Z n < inject_Z (Qfloor x) + inject_Z 1) as A by lra.
  assert (inject_Z (Qfloor x) < inject_Z n + inject_Z 1) as B by (change (inject_Z 1) with 1; lra).
  rewrite <- inject_Z_plus, <- Zlt_Qlt in A, B. lia.
Qed.

Lemma round_units_bounds d x :
  inject_Z (round_units d x) <= Qabs x * scale d + (1 # 2)
  /\ Qabs x * scale d + (1 # 2) < inject_Z (round_units d x) + 1.
Proof.
  unfold round_units, scale. split; [apply Qfloor_le |].
  pose proof (Qlt_floor (Qabs x * inject_Z (10 ^ Z.of_nat d) + (1 # 2))) as F.
  now rewrite inject_Z_plus in F.
Qed.

Lemma round_units_nonneg d x : (0 <= round_units d x)%Z.
Proof.
  destruct (round_units_bounds d x) as [_ H].
  pose proof (Qabs_nonneg x). pose proof (scale_pos d).
  assert (0 <= Qabs x * scale d) by nra.
  assert (inject_Z 0 < inject_Z (round_units d x) + inject_Z 1) as A
    by (change (inject_Z 0) with 0; change (inject_Z 1) with 1; lra).
  rewrite <- inject_Z_plus, <- Zlt_Qlt in A. lia.
Qed.

Lemma half_unit_window (y a n p : Q) :
  0 < a -> p * a == 1 ->
  n <= y * p + (1 # 2) -> y * p + (1 # 2) < n + 1 ->
  - ((1 # 2) * a) <= n * a - y /\ n * a - y <= (1 # 2) * a.
Proof.
  intros Ha Hpa H1 H2.
  assert (y == y * p * a) as Hy by (rewrite <- Qmult_assoc, Hpa; ring).
  assert ((n - (y * p + (1 # 2))) * a <= 0) as E1 by nra.
  assert (0 <= (n + 1 - (y * p + (1 # 2))) * a) as E2 by nra.
  split; lra.
Qed.

(** Rounding moves a number by at most half a unit of the last digit. *)
Lemma round_to_error d x :
  Qabs (round_to d x - x) <= (1 # 2) * / scale d.
Proof.
  pose proof (scale_pos d) as Hp.
  assert (0 < / scale d) as Ha by (apply Qinv_lt_0_compat; assumption).
  destruct (round_units_bounds d x) as [H1 H2].
  destruct (half_unit_window (Qabs x) (/ scale d) _ _ Ha (scale_inv d) H1 H2)
    as [L U].
  apply Qabs_Qle_condition. unfold round_to.
  destruct (Qltb x 0) eqn:Hs.
  - apply Qltb_lt in Hs. rewrite Qabs_neg in L, U by lra.
    rewrite inject_Z_opp. split; lra.
  - apply Qltb_ge in Hs. rewrite Qabs_pos in L, U by assumption.
    split; lra.
Qed.

Lemma round_to_on_grid d x : on_grid d (round_to d x).
Proof. unfold on_grid, round_to. eexists. reflexivity. Qed.

(** A number that is already on the grid is left as it is. *)
Lemma round_to_grid d x : on_grid d x -> round_to d x == x.
Proof.
  intros [k Hk]. pose proof (scale_pos d) as Hp.
  assert (0 < / scale d) as Ha by (apply Qinv_lt_0_compat; assumption).
  assert (x * scale d == inject_Z k) as Hxk.
  { rewrite Hk, <- Qmult_assoc, (Qmult_comm (/ scale d)), scale_inv. ring. }
  unfold round_to. destruct (Qltb x 0) eqn:Hs.
  - apply Qltb_lt in Hs.
    assert (round_units d x = (- k)%Z) as ->.
    { unfold round_units. fold (scale d). apply Qfloor_unique;
        rewrite Qabs_neg by lra; rewrite inject_Z_opp; nra. }
    rewrite Z.opp_involutive. now rewrite Hk.
  - apply Qltb_ge in Hs.
    assert (round_units d x = k) as ->.
    { unfold round_units. fold (scale d). apply Qfloor_unique;
        rewrite Qabs_pos by assumption; nra. }
    now rewrite Hk.
Qed.



Lemma round_units_proper d a b : a == b -> round_units d a = round_units d b.
Proof. intros E. unfold round_units. now rewrite E. Qed.

Lemma Qltb_proper a b c : a == b -> Qltb a c = Qltb b c.
Proof.
  intros E. destruct (Qltb b c) eqn:H.
  - apply Qltb_lt. apply Qltb_lt in H. now rewrite E.
  - apply Qltb_ge. apply Qltb_ge in H. now rewrite E.
Qed.

(** [toFixed] writes the same string for equal rationals. *)
Lemma toFixed_proper d a b : a == b -> toFixed d (Num a) = toFixed d (Num b).
Proof.
  intros E. unfold toFixed.
  now rewrite (round_units_proper d a b E), (Qltb_proper a b 0 E).
Qed.

(** What [toFixed] has written, [parseFloat] reads back. *)
Lemma parseFloat_toFixed d x :
  parseFloat (toFixed (S d) (Num x)) = Num (round_to (S d) x).
Proof.
  unfold toFixed, round_to.
  set (n := round_units (S d) x).
  set (p := (10 ^ Z.of_nat (S d))%Z).
  assert (0 <= n)%Z as Hn by apply round_units_nonneg.
  assert (0 < p)%Z as Hp by (apply Z.pow_pos_nonneg; lia).
  assert (0 <= n / p)%Z as Ha by (apply Z.div_pos; lia).
  assert (0 <= n mod p < p)%Z as Hb by (apply Z.mod_pos_bound; lia).
  destruct (fixed_digits_spec (S d) (n mod p) (n / p) (proj1 Hb))
    as (Fa & Fl & Fv).
  fold p in Fv. rewrite (Z.mod_small _ _ Hb) in Fv.
  assert ((n / p * p + n mod p)%Z = n) as Hnp
    by (pose proof (Z.div_mod n p); lia).
  rewrite Hnp in Fv.
  destruct (read_digits_of (n / p) (String "." (fixed_digits (S d) (n mod p) ""))
              Ha eq_refl) as [k Hk].
  destruct (digits_of_head (n / p) Ha) as (c & s & Hs & Hc).
  assert (forall neg,
    read_decimal neg (digits_of (n / p) ++
                      String "." (fixed_digits (S d) (n mod p) ""))
    = Num (inject_Z (if neg then (- n)%Z else n) * / scale (S d))) as Hbody.
  { intros neg. unfold read_decimal. rewrite Hk.
    rewrite <- (string_app_empty_r (fixed_digits (S d) (n mod p) "")) at 1.
    rewrite read_digits_app, Fv, Fl by assumption. cbn [read_digits].
    rewrite Nat.add_succ_r. reflexivity. }
  destruct (Qltb x 0); cbn [String.append]; rewrite Hs in *;
    cbn [String.append] in *.
  - rewrite parseFloat_minus_digit by assumption. apply (Hbody true).
  - rewrite parseFloat_digit by assumption. apply (Hbody false).
Qed.

(** Rounding does not cross a point of the grid. *)
Lemma round_to_le_grid d m k :
  m <= inject_Z k * / scale d -> round_to d m <= inject_Z k * / scale d.
Proof.
  intros H. pose proof (scale_pos d) as Hp.
  assert (0 < / scale d) as Ha by (apply Qinv_lt_0_compat; assumption).
  pose proof (round_to_error d m) as Herr. apply Qabs_Qle_condition in Herr.
  destruct (round_to_on_grid d m) as [j Hj]. rewrite Hj in *.
  assert (inject_Z j < inject_Z k + 1) as A by nra.
  change 1 with (inject_Z 1) in A.
  rewrite <- inject_Z_plus, <- Zlt_Qlt in A.
  assert (inject_Z j <= inject_Z k) as B by (rewrite <- Zle_Qle; lia).
  nra.
Qed.

Lemma min_num x r : JS.min (Num x) (Num r) = Num (if Qltb r x then r else x).
Proof. unfold JS.min. cbn [lt]. now destruct (Qltb r x). Qed.

End Rounding.

(** * The engine *)

Module Engine.
Import JS Spec Rounding TWAPStrategy.
Local Open Scope Q_scope.

(** ** Validation *)

Lemma truthy_of_number s x : parseFloat s = Num x -> truthy s = true.
Proof. destruct s; [discriminate | reflexivity]. Qed.

Lemma le_zero_false x : 0 < x -> le (Num x) (of_Z 0) = false.
Proof.
  intros H. cbn. apply not_true_iff_false. rewrite Qle_bool_iff.
  change (inject_Z 0) with 0. lra.
Qed.

(** A valid configuration passes [validateTWAPConfig]. *)
Lemma valid_passes_validation c f : Valid c f -> validateTWAPConfig c = Ok tt.
Proof.
  intros V. unfold validateTWAPConfig.
  pose proof (valid_total_pos c f V).
  pose proof (valid_interval_pos c f V). pose proof (valid_interval_le c f V).
  pose proof (valid_min_pos c f V). pose proof (valid_min_le_max c f V).
  pose proof (valid_slippage_range c f V) as [? ?].
  assert (truthy (TWAPConfig.pair c) = true) as ->.
  { pose proof (valid_pair c f V). now destruct (TWAPConfig.pair c). }
  rewrite (truthy_of_number _ _ (valid_total c f V)),
    (truthy_of_number _ _ (valid_min c f V)),
    (truthy_of_number _ _ (valid_max c f V)).
  rewrite (valid_total c f V), (valid_duration c f V), (valid_interval c f V),
    (valid_slippage c f V), (valid_min c f V), (valid_max c f V).
  rewrite !le_zero_false by lra. unfold gt. cbn [negb orb truthy_number lt of_Z].
  change (inject_Z 0) with 0. change (inject_Z 1) with 1.
  assert (Qeq_bool (seconds f) 0 = false) as ->
    by (apply not_true_iff_false; rewrite Qeq_bool_iff; lra).
  assert (Qeq_bool (every f) 0 = false) as ->
    by (apply not_true_iff_false; rewrite Qeq_bool_iff; lra).
  rewrite (proj2 (Qltb_ge (seconds f) (every f))) by assumption.
  rewrite (proj2 (Qltb_ge (slippage f) 0)) by assumption.
  rewrite (proj2 (Qltb_ge 1 (slippage f))) by assumption.
  rewrite (proj2 (Qltb_ge (largest f) (smallest f))) by assumption.
  reflexivity.
Qed.

(** ** The nominal size *)

Lemma orderCount_pos c f : Valid c f -> (1 <= orderCount f)%Z.
Proof.
  intros V. unfold orderCount.
  pose proof (valid_interval_pos c f V). pose proof (valid_interval_le c f V).
  assert (1 <= seconds f / every f) as H1.
  { apply Qle_shift_div_l; [assumption | lra]. }
  change 1 with (inject_Z 1) in H1.
  apply Qfloor_resp_le in H1. now rewrite Qfloor_Z in H1.
Qed.

Lemma calculateNumberOfOrders_valid c f :
  Valid c f -> calculateNumberOfOrders c = Num (inject_Z (orderCount f)).
Proof.
  intros V. unfold calculateNumberOfOrders, orderCount.
  rewrite (valid_duration c f V), (valid_interval c f V). cbn [div].
  pose proof (valid_interval_pos c f V).
  destruct (Qeq_bool (every f) 0) eqn:E; [| reflexivity].
  apply Qeq_bool_iff in E. lra.
Qed.

(** No engine operation touches the configuration. *)
Lemma stop_config w : config (self (stop w)) = config (self w).
Proof. unfold stop. now destruct (isRunning (self w)). Qed.

Lemma executeOrder_config env w :
  config (self (fst (fst (executeOrder env w)))) = config (self w).
Proof.
  unfold executeOrder.
  repeat match goal with
         | |- context [if ?b then _ else _] => destruct b
         | |- context [match ?r with Ok _ => _ | Throw _ => _ end] => destruct r
         end; cbn; auto using stop_config.
Qed.

Lemma start_config now env w :
  config (self (fst (fst (start now env w)))) = config (self w).
Proof.
  unfold start. destruct (isRunning (self w)); [reflexivity |].
  destruct (initializeState (config (self w)) now (store w)) as [st h].
  destruct (calculateOrderSize (config (self w))); [| reflexivity].
  match goal with |- context [executeOrder env ?w1] =>
    pose proof (executeOrder_config env w1) as E;
    destruct (executeOrder env w1) as [[w2 calls] [[] | e]] end;
    cbn in *; assumption.
Qed.

Lemma apply_config w op : config (self (apply w op)) = config (self w).
Proof.
  destruct op; cbn [apply];
    auto using start_config, executeOrder_config, stop_config.
Qed.

Lemma run_config ops : forall w, config (self (run ops w)) = config (self w).
Proof.
  induction ops as [| op ops IH]; intros w; [reflexivity |].
  cbn [run fold_left]. fold (run ops (apply w op)).
  now rewrite IH, apply_config.
Qed.

Lemma create_config c now h : config (self (create c now h)) = c.
Proof. reflexivity. Qed.

Lemma calculateOrderSize_valid c f :
  Valid c f ->
  calculateOrderSize c
  = if Qltb (rawSize f) (smallest f) then Ok (TWAPConfig.minOrderSize c)
    else if Qltb (largest f) (rawSize f) then Ok (TWAPConfig.maxOrderSize c)
    else Ok (toFixed 8 (Num (rawSize f))).
Proof.
  intros V. unfold calculateOrderSize.
  rewrite (calculateNumberOfOrders_valid c f V).
  pose proof (orderCount_pos c f V) as Hn.
  assert (Qeq_bool (inject_Z (orderCount f)) 0 = false) as E.
  { apply not_true_iff_false. rewrite Qeq_bool_iff.
    change 0 with (inject_Z 0). rewrite inject_Z_injective. lia. }
  cbn [eqb of_Z]. change (inject_Z 0) with 0. rewrite E.
  rewrite (valid_total c f V), (valid_min c f V), (valid_max c f V).
  cbn [div]. rewrite E. reflexivity.
Qed.

(** The nominal size of a valid configuration is a number. *)
Lemma calculateOrderSize_number c f :
  Valid c f ->
  exists s x, calculateOrderSize c = Ok s /\ parseFloat s = Num x.
Proof.
  intros V. rewrite (calculateOrderSize_valid c f V).
  destruct (Qltb (rawSize f) (smallest f)).
  { exists (TWAPConfig.minOrderSize c), (smallest f).
    split; [reflexivity | apply (valid_min c f V)]. }
  destruct (Qltb (largest f) (rawSize f)).
  { exists (TWAPConfig.maxOrderSize c), (largest f).
    split; [reflexivity | apply (valid_max c f V)]. }
  exists (toFixed 8 (Num (rawSize f))), (round_to 8 (rawSize f)).
  split; [reflexivity | apply parseFloat_toFixed].
Qed.

(** ** One step, case by case *)

Lemma executeOrder_outcome env w :
  Outcome env w (fst (fst (executeOrder env w))) (snd (fst (executeOrder env w)))
          (snd (executeOrder env w)).
Proof.
  unfold executeOrder. fold (remainingOf w).
  destruct (isRunning (self w)) eqn:Hrun; cbn [negb];
    [| now apply idle].
  destruct (le (remainingOf w) (of_Z 0)) eqn:Hle; [now apply ended |].
  destruct (ge _ _); [now apply ended |].
  destruct (calculateOrderSize (config (self w))) as [nominal | e] eqn:Hsize;
    [| now apply threw].
  destruct (tooSmall _ _ _) eqn:Hsmall; [now apply ended |].
  destruct (marketPrice env) as [price | e] eqn:Hprice;
    [| now apply (priceFailed env w nominal e)].
  destruct (placement env) as [response | e] eqn:Hplace.
  - now apply folded.
  - now apply (orderFailed env w nominal price e).
Qed.

(** ** The store of arrays *)

Lemma read_push_same (h : Store) r x :
  read (push h r x) r = if decide (r < length h)%nat then read h r ++ [x] else [].
Proof.
  unfold push, read. destruct (decide (r < length h)%nat) as [Hlt | Hge].
  - now rewrite list_lookup_insert_eq.
  - rewrite list_insert_ge by lia. now rewrite lookup_ge_None_2 by lia.
Qed.

Lemma read_alloc (h : Store) : read (snd (alloc h)) (fst (alloc h)) = [].
Proof.
  unfold alloc, read. cbn [fst snd].
  now rewrite lookup_app_r, Nat.sub_diag by lia.
Qed.

Lemma amounts_updateAverage st h :
  TWAPState.totalAmount (updateAverageExecutionPrice st h) = TWAPState.totalAmount st
  /\ TWAPState.executedAmount (updateAverageExecutionPrice st h)
     = TWAPState.executedAmount st
  /\ TWAPState.remainingAmount (updateAverageExecutionPrice st h)
     = TWAPState.remainingAmount st.
Proof.
  unfold updateAverageExecutionPrice.
  destruct (length _ =? 0)%nat; [auto |].
  destruct (fold_left _ _ _) as [v z]. now destruct (gt z (of_Z 0)).
Qed.

Lemma orders_updateAverage st h :
  TWAPState.orders (updateAverageExecutionPrice st h) = TWAPState.orders st.
Proof.
  unfold updateAverageExecutionPrice.
  destruct (length _ =? 0)%nat; [reflexivity |].
  destruct (fold_left _ _ _) as [v z]. now destruct (gt z (of_Z 0)).
Qed.

Lemma ordersOf_stop w : ordersOf (stop w) = ordersOf w.
Proof. unfold stop. now destruct (isRunning (self w)). Qed.

Lemma ordersOf_foldResponse w rem size price clock response :
  ordersOf (foldResponse w rem size price clock response)
  = if decide (TWAPState.orders (state (self w)) < length (store w))%nat
    then ordersOf w ++ [recordOf (config (self w)) size price clock response]
    else [].
Proof.
  unfold ordersOf, foldResponse. cbn [self store state].
  rewrite orders_updateAverage. cbn [setAmounts TWAPState.orders].
  apply read_push_same.
Qed.

(** ** The statuses in the history *)

Lemma recordOf_accepted c size price clock response :
  acceptedStatus (recordOf c size price clock response).
Proof.
  unfold acceptedStatus, recordOf. cbn [OrderExecution.status].
  destruct (String.eqb _ _); auto.
Qed.

Lemma executeOrder_accepted env w :
  Forall acceptedStatus (ordersOf w) ->
  Forall acceptedStatus (ordersOf (fst (fst (executeOrder env w)))).
Proof.
  intros H. destruct (executeOrder_outcome env w); try assumption.
  - now rewrite ordersOf_stop.
  - rewrite ordersOf_foldResponse. case_decide; [| constructor].
    apply Forall_app. split; [assumption |].
    constructor; [apply recordOf_accepted | constructor].
Qed.

Lemma ordersOf_initializeState c now h t run :
  ordersOf (mkWorld (mk c (fst (initializeState c now h)) t run)
                    (snd (initializeState c now h))) = [].
Proof. unfold ordersOf, initializeState. cbn. apply read_alloc. Qed.

Lemma start_accepted now env w :
  Forall acceptedStatus (ordersOf w) ->
  Forall acceptedStatus (ordersOf (fst (fst (start now env w)))).
Proof.
  intros H. unfold start. destruct (isRunning (self w)); [assumption |].
  pose proof (ordersOf_initializeState (config (self w)) now (store w)
                (intervalTimer (self w)) true) as E.
  destruct (initializeState (config (self w)) now (store w)) as [st h].
  cbn [fst snd] in E.
  assert (Forall acceptedStatus
            (ordersOf (mkWorld (mk (config (self w)) st (intervalTimer (self w)) true) h)))
    as H1 by (rewrite E; constructor).
  destruct (calculateOrderSize (config (self w))); [| assumption].
  apply (executeOrder_accepted env) in H1.
  destruct (executeOrder env _) as [[w2 calls] [[] | e]]; cbn in *; assumption.
Qed.

Lemma run_accepted ops : forall w,
  Forall acceptedStatus (ordersOf w) ->
  Forall acceptedStatus (ordersOf (run ops w)).
Proof.
  induction ops as [| op ops IH]; intros w H; [assumption |].
  cbn [run fold_left]. apply IH.
  destruct op; cbn [apply].
  - now apply start_accepted.
  - now apply executeOrder_accepted.
  - now rewrite ordersOf_stop.
Qed.

(** C10.  Whatever the engine is made to do after its construction
    (starts, timer ticks with any answers of the gateway, stops), every
    record of its order history has the status pending or filled; and the
    record made from a response whose status is not 'filled' ('partial'
    for one) is pending. *)
Theorem history_statuses c now h ops :
  (forall o, In o (ordersOf (run ops (create c now h))) ->
     OrderExecution.status o = pending \/ OrderExecution.status o = filled)
  /\ (forall size price clock response,
        BluefinOrderResponse.status response <> "filled" ->
        OrderExecution.status (recordOf c size price clock response) = pending)
  /\ OrderExecution.status
       (recordOf c "1" "1" 0 (BluefinOrderResponse.mk "id" "partial" None None))
     = pending.
Proof.
  split; [| split].
  - intros o Ho.
    assert (Forall acceptedStatus (ordersOf (run ops (create c now h)))) as F.
    { apply run_accepted.
      unfold create.
      pose proof (ordersOf_initializeState c now h None false) as E.
      destruct (initializeState c now h) as [st h']. cbn [fst snd] in E.
      rewrite E. constructor. }
    rewrite Forall_forall in F. apply F. now apply list_elem_of_In.
  - intros size price clock response Hne. unfold recordOf.
    cbn [OrderExecution.status].
    destruct (String.eqb_spec (BluefinOrderResponse.status response) "filled");
      [contradiction | reflexivity].
  - reflexivity.
Qed.


(** ** A step whose call on the gateway fails *)

Lemma isRunning_stop w : isRunning (self (stop w)) = false.
Proof. unfold stop. destruct (isRunning (self w)) eqn:E; [reflexivity | exact E]. Qed.

(** C4, as the code has it.  When the price request or the order of a step
    fails, the step returns normally and leaves the engine exactly as it
    was: still running, with the same amounts and the same order history.
    Nothing is appended for the failed attempt. *)
Theorem failed_step_changes_nothing env w :
  gatewayFails env ->
  snd (fst (executeOrder env w)) <> [] ->
  fst (fst (executeOrder env w)) = w
  /\ isActive (fst (fst (executeOrder env w))) = true
  /\ snd (executeOrder env w) = Ok tt
  /\ ordersOf (fst (fst (executeOrder env w))) = ordersOf w.
Proof.
  intros Hfail Hcalls.
  destruct (executeOrder_outcome env w) as
    [ | | | nominal e Hrun _ _ _ | nominal price e Hrun _ _ _ _
      | nominal price response _ _ _ _ Hprice Hplace ];
    try (now contradiction Hcalls); try (now repeat split).
  destruct Hfail as [[e He] | [e He]]; congruence.
Qed.

(** ** A negligible remainder *)

Lemma negligible_on_grid : (1 # 10000) == inject_Z 10000 * / scale 8.
Proof. reflexivity. Qed.

(** C5, as the code has it.  With a valid configuration whose minimal
    order size is above 0.0001, a step that starts with a remainder
    between 0 and 0.0001 stops the engine and calls the gateway not at
    all. *)
Theorem negligible_remainder_stops c f env w r :
  Valid c f ->
  (1 # 10000) < smallest f ->
  config (self w) = c ->
  isRunning (self w) = true ->
  remainingOf w = Num r ->
  0 < r < (1 # 10000) ->
  executeOrder env w = (stop w, [], Ok tt)
  /\ isActive (stop w) = false.
Proof.
  intros V Hmin Hc Hrun Hr [Hr0 Hr1].
  split; [| apply isRunning_stop].
  unfold executeOrder. fold (remainingOf w). rewrite Hrun, Hr, Hc. cbn [negb].
  assert (le (Num r) (of_Z 0) = false) as ->.
  { cbn. apply not_true_iff_false. rewrite Qle_bool_iff.
    change (inject_Z 0) with 0. lra. }
  destruct (ge _ _); [reflexivity |].
  destruct (calculateOrderSize_number c f V) as (s & x & -> & Hx).
  assert (tooSmall c (actualSize s (Num r)) (Num r) = true) as ->; [| reflexivity].
  unfold tooSmall, actualSize. rewrite Hx, min_num, parseFloat_toFixed.
  rewrite (valid_min c f V). cbn [lt gt negligible].
  apply andb_true_intro. split.
  - apply Qltb_lt. apply Qle_lt_trans with (1 # 10000); [| assumption].
    rewrite negligible_on_grid. apply round_to_le_grid.
    rewrite <- negligible_on_grid. destruct (Qltb r x) eqn:E; [lra |].
    apply Qltb_ge in E. lra.
  - apply negb_true_iff. apply Qltb_ge. lra.
Qed.

(** ** The size of the last order *)


(** After a fold the remainder, when it is a number, has at most 8
    fractional digits. *)
Lemma remainder_after_fold_on_grid w rem size price clock response r :
  remainingOf (foldResponse w rem size price clock response) = Num r ->
  on_grid 8 r.
Proof.
  unfold remainingOf, foldResponse. cbn [self state].
  match goal with |- context [updateAverageExecutionPrice ?st ?h] =>
    destruct (amounts_updateAverage st h) as (_ & _ & ->) end.
  cbn [setAmounts TWAPState.remainingAmount].
  destruct (sub rem (foldedAmount size response)) as [| x | []].
  - discriminate.
  - rewrite parseFloat_toFixed. intros [= <-]. apply round_to_on_grid.
  - discriminate.
  - discriminate.
Qed.


(** ** Conservation of the total amount *)

Lemma state_stop w : state (self (stop w)) = state (self w).
Proof. unfold stop. now destruct (isRunning (self w)). Qed.











(** ** The average execution price *)





End Engine.

(** * The gateway *)

Module Gateway.
Import JS Spec Numerals Rounding BluefinClient.
Local Open Scope Q_scope.

(** ** Conversion to and from the units of the venue *)

Lemma toBigInt_integer k : toBigInt (Num (inject_Z k)) = Ok k.
Proof.
  unfold toBigInt. rewrite Qfloor_Z.
  now rewrite (proj2 (Qeq_bool_iff _ _) (Qeq_refl (inject_Z k))).
Qed.

Lemma toBluefinAmount_accepts s x :
  parseFloat s = Num x -> 0 <= x ->
  toBluefinAmount s
  = Ok (bigint_toString (Qfloor (x * inject_Z DECIMAL_MULTIPLIER))).
Proof.
  intros Hs Hx. unfold toBluefinAmount. rewrite Hs. cbn [isNaN orb lt of_Z].
  change (inject_Z 0) with 0.
  rewrite (proj2 (Qltb_ge x 0) Hx). unfold of_Z. cbn [mul floor].
  now rewrite toBigInt_integer.
Qed.

Lemma toBluefinAmount_rejects s :
  (parseFloat s = NaN
   \/ (exists x, parseFloat s = Num x /\ x < 0)
   \/ parseFloat s = Inf true) ->
  toBluefinAmount s = Throw ("Invalid amount: " ++ s)%string.
Proof.
  unfold toBluefinAmount. intros [-> | [(x & -> & Hx) | ->]]; try reflexivity.
  cbn [isNaN orb lt of_Z]. change (inject_Z 0) with 0.
  now rewrite (proj2 (Qltb_lt x 0) Hx).
Qed.



(** ** The retry loop *)

Lemma lower_char_not_upper c : is_upper (lower_char c) = false.
Proof. destruct c as [[] [] [] [] [] [] [] []]; reflexivity. Qed.

Lemma prefix_of_lower t : forall m,
  has_upper t = true -> String.prefix t (toLowerCase m) = false.
Proof.
  induction t as [| c t IH]; intros m H; [discriminate |].
  destruct m as [| d m]; [reflexivity |]. cbn [toLowerCase String.prefix].
  destruct (ascii_dec c (lower_char d)) as [-> | _]; [| reflexivity].
  cbn [has_upper] in H. rewrite lower_char_not_upper in H. now apply IH.
Qed.

(** A message in lower case contains no pattern that has a capital. *)
Lemma includes_of_lower t m :
  has_upper t = true -> includes (toLowerCase m) t = false.
Proof.
  intros H. induction m as [| d m IH].
  - cbn. destruct t; [discriminate | reflexivity].
  - pose proof (prefix_of_lower t (String d m) H) as P.
    cbn [toLowerCase includes] in *. now rewrite P.
Qed.

(** The three entries of [retryableMessages] written in capitals never
    make an error retryable. *)
Lemma isRetryableError_matchable e :
  isRetryableError e = existsb (fun msg => includes (toLowerCase e) msg) matchable.
Proof.
  unfold isRetryableError, retryableMessages, matchable. cbn [existsb].
  rewrite (includes_of_lower "ECONNRESET" e), (includes_of_lower "ETIMEDOUT" e),
    (includes_of_lower "ENOTFOUND" e) by reflexivity.
  reflexivity.
Qed.

(** The wrapper as the code has it, for the errors that
    [isRetryableError] accepts. *)
Lemma retried_twice_then_success {T} (fn : nat -> result T) e1 e2 v :
  fn 0%nat = Throw e1 -> isRetryableError e1 = true ->
  fn 1%nat = Throw e2 -> isRetryableError e2 = true ->
  fn 2%nat = Ok v ->
  executeWithRetry fn
  = (Ok v, [Call 0; Sleep 1000; Call 1; Sleep 2000; Call 2]).
Proof.
  intros H0 R0 H1 R1 H2. unfold executeWithRetry, maxRetries.
  cbn [retryLoop]. rewrite H0, R0. cbn -[isRetryableError].
  rewrite H1, R1. cbn -[isRetryableError]. now rewrite H2.
Qed.


Lemma at_most_three_attempts {T} (fn : nat -> result T) :
  snd (executeWithRetry fn) = [Call 0]
  \/ snd (executeWithRetry fn) = [Call 0; Sleep 1000; Call 1]
  \/ snd (executeWithRetry fn) = [Call 0; Sleep 1000; Call 1; Sleep 2000; Call 2].
Proof.
  unfold executeWithRetry, maxRetries. cbn [retryLoop].
  destruct (fn 0%nat) as [v | e0]; [now left |].
  destruct (isRetryableError e0); cbn -[isRetryableError]; [| now left].
  destruct (fn 1%nat) as [v | e1]; [right; now left |].
  destruct (isRetryableError e1); cbn -[isRetryableError]; [| right; now left].
  destruct (fn 2%nat) as [v | e2]; [right; now right |].
  destruct (isRetryableError e2); cbn; right; now right.
Qed.

(** C6, at the input on which the code departs from it: an error whose
    message is "read ECONNRESET" is not retryable for [isRetryableError],
    so a call that fails with it twice and would succeed at the third
    attempt is given up after the first, without a sleep. *)
Theorem connection_reset_is_not_retried :
  isRetryableError "read ECONNRESET" = false
  /\ In "ECONNRESET" retryableMessages
  /\ executeWithRetry resetTwice = (Throw "read ECONNRESET", [Call 0])
  /\ resetTwice 2%nat = Ok "done".
Proof.
  repeat split; try reflexivity. cbn. auto.
Qed.

End Gateway.

(** * The statements at work on the scenarios *)

Module Cases.
Import JS Spec Rounding TWAPStrategy Engine Gateway Scenarios.
Local Open Scope Q_scope.

(** Closes a goal about a scenario by evaluation. *)
Ltac forget_all := repeat match goal with H : _ |- _ => clear H end.

Ltac evaluate :=
  vm_compute; forget_all; first [reflexivity | discriminate | tauto].

Ltac evaluate_all := repeat (split; [evaluate |]); evaluate.

(** Replaces a closed term of the goal by its value. *)
Ltac value_of t :=
  let v := eval vm_compute in t in
  replace t with v by (vm_compute; reflexivity).

Lemma hourly_valid : Valid hourly hourlyFigures.
Proof. constructor; try evaluate. split; evaluate. Qed.

Lemma single_valid total smallest largest :
  parseFloat total = Num (numberOf total) ->
  parseFloat smallest = Num (numberOf smallest) ->
  parseFloat largest = Num (numberOf largest) ->
  0 < numberOf total ->
  0 < numberOf smallest ->
  numberOf smallest <= numberOf largest ->
  Valid (single total smallest largest) (singleFigures total smallest largest).
Proof.
  intros. constructor; try assumption; try reflexivity; try discriminate.
  cbn. split; discriminate.
Qed.











(** C4: the theorem on a refused order. *)
Lemma refused_order_changes_nothing :
  gatewayFails orderRefused
  /\ snd (fst (executeOrder orderRefused (started hourly))) <> []
  /\ fst (fst (executeOrder orderRefused (started hourly))) = started hourly
  /\ isActive (fst (fst (executeOrder orderRefused (started hourly)))) = true.
Proof.
  assert (gatewayFails orderRefused) as H1 by (right; eexists; evaluate).
  assert (snd (fst (executeOrder orderRefused (started hourly))) <> [])
    as H2 by evaluate.
  destruct (failed_step_changes_nothing orderRefused (started hourly) H1 H2)
    as (E1 & E2 & _).
  repeat (split; [assumption |]). assumption.
Defined.

(** C4 fails in its second half: the order is sent and refused, the engine
    keeps running, and its history holds no record of the attempt. *)
Lemma refused_order_leaves_no_record :
  snd (fst (executeOrder orderRefused (started hourly)))
  = [ GetMarketPrice "ALKIMI/USDC";
      PlaceOrder (BluefinOrderParams.mk "ALKIMI/USDC" buy "83.33333333"
                                        (Some "1.01000000") limit) ]
  /\ isActive (fst (fst (executeOrder orderRefused (started hourly)))) = true
  /\ ordersOf (fst (fst (executeOrder orderRefused (started hourly)))) = [].
Proof. evaluate_all. Qed.

(** C5: the theorem on an engine whose order of 1 was filled up to
    0.00005, with a minimal order size of 0.5. *)
Lemma negligible_remainder_stops_almost_filled :
  Valid (single "1" "0.5" "1") (singleFigures "1" "0.5" "1")
  /\ 1 # 10000 < smallest (singleFigures "1" "0.5" "1")
  /\ isRunning (self almostFilled) = true
  /\ remainingOf almostFilled = Num (numberOf "0.00005000")
  /\ 0 < numberOf "0.00005000" < 1 # 10000
  /\ executeOrder (answered (answer "pending" None None)) almostFilled
     = (stop almostFilled, [], Ok tt)
  /\ isActive (stop almostFilled) = false.
Proof.
  assert (Valid (single "1" "0.5" "1") (singleFigures "1" "0.5" "1")) as V
    by (apply single_valid; evaluate).
  assert (1 # 10000 < smallest (singleFigures "1" "0.5" "1")) as H1 by evaluate.
  assert (config (self almostFilled) = single "1" "0.5" "1") as H2 by evaluate.
  assert (isRunning (self almostFilled) = true) as H3 by evaluate.
  assert (remainingOf almostFilled = Num (numberOf "0.00005000")) as H4
    by evaluate.
  assert (0 < numberOf "0.00005000" < 1 # 10000) as H5 by (split; evaluate).
  destruct (negligible_remainder_stops _ _
              (answered (answer "pending" None None)) almostFilled _
              V H1 H2 H3 H4 H5) as [E1 E2].
  repeat (split; [assumption |]). assumption.
Defined.

(** C5 fails for a minimal order size below 0.0001: with a remainder of
    0.00005 and a minimal size of 0.00001 the order is sent and the engine
    keeps running. *)
Lemma negligible_remainder_is_ordered :
  validateTWAPConfig (single "0.00005" "0.00001" "1") = Ok tt
  /\ isActive (started (single "0.00005" "0.00001" "1")) = true
  /\ remainingOf (started (single "0.00005" "0.00001" "1")) = parseFloat "0.00005"
  /\ 0 < numberOf "0.00005" < 1 # 10000
  /\ snd (fst (executeOrder (answered (answer "pending" None None))
                            (started (single "0.00005" "0.00001" "1"))))
     = [ GetMarketPrice "ALKIMI/USDC";
         PlaceOrder (BluefinOrderParams.mk "ALKIMI/USDC" buy "0.00005000"
                                           (Some "1.01000000") limit) ]
  /\ isActive (fst (fst (executeOrder (answered (answer "pending" None None))
                                      (started (single "0.00005" "0.00001" "1")))))
     = true.
Proof. evaluate_all. Qed.



(** The object that [getState] returns holds the reference of the engine
    to the order history, not a copy of the history. *)
Lemma getState_shares_orders w :
  TWAPState.orders (getState w) = TWAPState.orders (state (self w)).
Proof. reflexivity. Qed.

(** C9, at the input on which the code departs from it.  A snapshot taken
    after the first order shows one record; after the next step of the
    engine the same snapshot shows two; and a record pushed through the
    snapshot is in the history of the engine. *)
Theorem snapshot_follows_engine :
  let w1 := run [Start 0 sixty] (create hourly 0 []) in
  let snapshot := getState w1 in
  let w2 := run [Tick forty] w1 in
  let intruder := recordOf hourly "1" "1" 0 (answer "failed" None None) in
  length (read (store w1) (TWAPState.orders snapshot)) = 1%nat
  /\ length (read (store w2) (TWAPState.orders snapshot)) = 2%nat
  /\ read (store w2) (TWAPState.orders snapshot) = ordersOf w2
  /\ ordersOf (mkWorld (self w1)
                       (push (store w1) (TWAPState.orders snapshot) intruder))
     = ordersOf w1 ++ [intruder]
  /\ TWAPState.remainingAmount snapshot = "940.00000000"
  /\ TWAPState.remainingAmount (state (self w2)) = "900.00000000".
Proof. evaluate_all. Qed.

End Cases.

(** * The engine over whole runs *)

Module Runs.
Import JS TWAPStrategy Spec Numerals Rounding Engine.
Local Open Scope Q_scope.

(** ** The shape of [start()] and of a step *)

Lemma executeOrder_idle env w :
  isRunning (self w) = false -> executeOrder env w = (w, [], Ok tt).
Proof. intros H. unfold executeOrder. now rewrite H. Qed.

Lemma stop_idle w : isRunning (self w) = false -> stop w = w.
Proof. intros H. unfold stop. now rewrite H. Qed.

Lemma executeOrder_returns env w s :
  calculateOrderSize (config (self w)) = Ok s ->
  snd (executeOrder env w) = Ok tt.
Proof.
  intros H. destruct (executeOrder_outcome env w); try reflexivity. congruence.
Qed.

Lemma start_running now env w :
  isRunning (self w) = true -> start now env w = (w, [], Ok tt).
Proof. intros H. unfold start. now rewrite H. Qed.

Lemma start_throws now env w e :
  isRunning (self w) = false ->
  calculateOrderSize (config (self w)) = Throw e ->
  start now env w = (restarted now w, [], Throw e).
Proof. intros H E. unfold start, restarted. rewrite H. cbn. now rewrite E. Qed.

Lemma start_steps now env w s :
  isRunning (self w) = false ->
  calculateOrderSize (config (self w)) = Ok s ->
  start now env w
  = (armed (period (config (self w)))
       (fst (fst (executeOrder env (restarted now w)))),
     snd (fst (executeOrder env (restarted now w))), Ok tt).
Proof.
  intros H E. pose proof (executeOrder_returns env (restarted now w) s E) as R.
  unfold start. rewrite H. cbn [initializeState alloc]. rewrite E.
  fold (restarted now w) in *. unfold restarted in *. cbn [initializeState alloc fst snd] in *.
  destruct (executeOrder env _) as [[w2 calls] r]. cbn [fst snd] in *.
  subst r. reflexivity.
Qed.

(** The three ways in which [start()] can go. *)
Lemma start_cases now env w :
  (isRunning (self w) = true /\ start now env w = (w, [], Ok tt))
  \/ (isRunning (self w) = false
      /\ exists e, start now env w = (restarted now w, [], Throw e))
  \/ (isRunning (self w) = false
      /\ start now env w
         = (armed (period (config (self w)))
              (fst (fst (executeOrder env (restarted now w)))),
            snd (fst (executeOrder env (restarted now w))), Ok tt)).
Proof.
  destruct (isRunning (self w)) eqn:H.
  - left. split; [reflexivity | now apply start_running].
  - right. destruct (calculateOrderSize (config (self w))) as [s | e] eqn:E.
    + right. split; [reflexivity | now apply (start_steps now env w s)].
    + left. split; [reflexivity |]. exists e. now apply start_throws.
Qed.

(** ** An engine that is not running *)

Lemma apply_idle w op :
  isRunning (self w) = false -> isStart op = false ->
  apply w op = w /\ callsOf w op = [].
Proof.
  intros Hw Hop. destruct op; [discriminate | |]; cbn [apply callsOf].
  - now rewrite executeOrder_idle.
  - split; [now apply stop_idle | reflexivity].
Qed.

(** X1.  An engine that is not running stays as it is and makes no call
    on the gateway, whatever timer ticks and calls of stop() follow: only
    start() gets it going again. *)
Theorem stopped_engine_is_inert w ops :
  isActive w = false -> startFree ops = true ->
  run ops w = w /\ trace ops w = [].
Proof.
  intros Hw. induction ops as [| op ops IH]; intros Hs; [now split |].
  cbn [startFree forallb] in Hs. apply andb_prop in Hs as [Hop Hs].
  apply negb_true_iff in Hop.
  destruct (apply_idle w op Hw Hop) as [E1 E2].
  cbn [run fold_left trace]. rewrite E1, E2. now apply IH.
Qed.

Lemma run_idle ops w :
  isRunning (self w) = false -> startFree ops = true -> run ops w = w.
Proof.
  intros Hw. induction ops as [| op ops IH]; intros Hs; [reflexivity |].
  cbn [startFree forallb] in Hs. apply andb_prop in Hs as [Hop Hs].
  apply negb_true_iff in Hop.
  destruct (apply_idle w op Hw Hop) as [E1 _].
  cbn [run fold_left]. rewrite E1. now apply IH.
Qed.

(** ** The arrays of the store *)

Lemma read_push_other (h : Store) r r' x : r' <> r -> read (push h r x) r' = read h r'.
Proof. intros H. unfold push, read. now rewrite list_lookup_insert_ne. Qed.

Lemma length_push (h : Store) r x : length (push h r x) = length h.
Proof. unfold push. apply length_insert. Qed.

(** A step keeps the array of the history, and pushes at most one record
    on it: the one of the answer to its order. *)
Lemma executeOrder_store env w :
  historyRef (fst (fst (executeOrder env w))) = historyRef w
  /\ (store (fst (fst (executeOrder env w))) = store w
      \/ exists size price response,
           placement env = Ok response
           /\ store (fst (fst (executeOrder env w)))
              = push (store w) (historyRef w)
                  (recordOf (config (self w)) size price (clockAtOrder env) response)).
Proof.
  destruct (executeOrder_outcome env w) as
    [ | | | | | nominal price response _ _ _ _ _ Hplace ];
    try (split; [reflexivity | now left]).
  - unfold historyRef. rewrite state_stop. split; [reflexivity | left].
    unfold stop. now destruct (negb _).
  - split.
    + unfold historyRef, foldResponse. cbn [self state].
      now rewrite orders_updateAverage.
    + right. exists (actualSize nominal (remainingOf w)), price, response.
      split; [assumption | reflexivity].
Qed.

Lemma restarted_store now w :
  historyRef (restarted now w) = length (store w)
  /\ store (restarted now w) = store w ++ [[]].
Proof. split; reflexivity. Qed.

Lemma WellFormed_executeOrder env w :
  WellFormed w -> WellFormed (fst (fst (executeOrder env w))).
Proof.
  unfold WellFormed. fold (historyRef w).
  fold (historyRef (fst (fst (executeOrder env w)))).
  destruct (executeOrder_store env w) as [-> [-> | (? & ? & ? & _ & ->)]];
    [trivial |]. now rewrite length_push.
Qed.

Lemma WellFormed_restarted now w : WellFormed (restarted now w).
Proof.
  unfold WellFormed. fold (historyRef (restarted now w)).
  destruct (restarted_store now w) as [-> ->]. rewrite length_app. cbn. lia.
Qed.

Lemma WellFormed_apply w op : WellFormed w -> WellFormed (apply w op).
Proof.
  intros H. destruct op as [now env | env |]; cbn [apply].
  - destruct (start_cases now env w) as [[_ ->] | [[_ [e ->]] | [_ ->]]];
      cbn [fst]; [assumption | apply WellFormed_restarted |].
    apply (WellFormed_executeOrder env), (WellFormed_restarted now w).
  - now apply WellFormed_executeOrder.
  - unfold WellFormed. rewrite state_stop. unfold stop. now destruct (negb _).
Qed.

Lemma WellFormed_run ops : forall w, WellFormed w -> WellFormed (run ops w).
Proof.
  induction ops as [| op ops IH]; intros w H; [assumption |].
  cbn [run fold_left]. apply IH. now apply WellFormed_apply.
Qed.

Lemma WellFormed_create c now h : WellFormed (create c now h).
Proof. unfold WellFormed, create. cbn. rewrite length_app. cbn. lia. Qed.

(** ** The history only grows *)

Lemma executeOrder_history env w :
  WellFormed w ->
  ordersOf (fst (fst (executeOrder env w))) = ordersOf w
  \/ exists o,
       ordersOf (fst (fst (executeOrder env w))) = ordersOf w ++ [o]
       /\ recorded [Tick env] o.
Proof.
  intros Hw. unfold ordersOf. fold (historyRef w).
  fold (historyRef (fst (fst (executeOrder env w)))).
  destruct (executeOrder_store env w)
    as [-> [-> | (size & price & response & Hplace & ->)]]; [now left |].
  right. eexists. split.
  - rewrite read_push_same. rewrite decide_True by exact Hw. reflexivity.
  - exists env, response. cbn [In recordOf OrderExecution.orderId
      OrderExecution.timestamp OrderExecution.filledSize
      OrderExecution.averagePrice]. tauto.
Qed.

Lemma recorded_later op ops o : recorded ops o -> recorded (op :: ops) o.
Proof.
  intros (env & response & Hin & H). exists env, response.
  split; [now right | assumption].
Qed.

Lemma recorded_first env ops o : recorded [Tick env] o -> recorded (Tick env :: ops) o.
Proof.
  intros (env' & response & [Hin | []] & H). exists env', response.
  split; [now left | assumption].
Qed.

Lemma run_history ops : forall w,
  WellFormed w -> startFree ops = true ->
  exists l,
    ordersOf (run ops w) = ordersOf w ++ l
    /\ (length l <= length ops)%nat
    /\ Forall (recorded ops) l.
Proof.
  induction ops as [| op ops IH]; intros w Hw Hs.
  { exists []. cbn. rewrite app_nil_r. repeat split; [lia | constructor]. }
  cbn in Hs. apply andb_prop in Hs as [Hop Hs].
  destruct (IH (apply w op) (WellFormed_apply w op Hw) Hs) as (l & El & Hl & Hrec).
  cbn [run fold_left]. fold (run ops (apply w op)). rewrite El.
  assert (Forall (recorded (op :: ops)) l) as Hrec'.
  { eapply Forall_impl; [exact Hrec |]. intros o. apply recorded_later. }
  destruct op as [| env |]; [discriminate | |]; cbn [apply].
  - destruct (executeOrder_history env w Hw) as [-> | (o & -> & Ho)].
    + exists l. cbn [length]. repeat split; [lia | assumption].
    + exists (o :: l). rewrite <- app_assoc. cbn [app length].
      repeat split; [lia |]. constructor; [now apply recorded_first | assumption].
  - rewrite ordersOf_stop. exists l. cbn [length]. repeat split; [lia | assumption].
Qed.

(** X2.  Between two calls of start() the order history only grows: a run
    of timer ticks and calls of stop() leaves the records that were there
    in place and in order, and adds at most one record per tick, each made
    from the answer that the gateway gave to the order of one of these
    ticks (its order id, filled size and average price, and the clock of
    the step). *)
Theorem history_is_append_only c now h before after :
  startFree after = true ->
  exists l,
    ordersOf (run (before ++ after) (create c now h))
    = ordersOf (run before (create c now h)) ++ l
    /\ (length l <= length after)%nat
    /\ Forall (recorded after) l.
Proof.
  intros Hs. unfold run at 1. rewrite fold_left_app.
  fold (run before (create c now h)).
  fold (run after (run before (create c now h))).
  apply run_history; [| assumption].
  apply WellFormed_run, WellFormed_create.
Qed.

(** ** The arrays of earlier runs *)

Lemma read_app_old (h : Store) r l : (r < length h)%nat -> read (h ++ l) r = read h r.
Proof. intros H. unfold read. now rewrite lookup_app_l. Qed.

Lemma executeOrder_other_arrays env w r :
  r <> historyRef w ->
  read (store (fst (fst (executeOrder env w)))) r = read (store w) r
  /\ length (store (fst (fst (executeOrder env w)))) = length (store w).
Proof.
  intros Hr.
  destruct (executeOrder_store env w) as [_ [-> | (? & ? & ? & _ & ->)]];
    [now split |].
  split; [now apply read_push_other | apply length_push].
Qed.

(** A call of [start()] on a stopped engine leaves every array that
    exists, the one of the history too, and takes a new one. *)
Lemma start_old_arrays now env w r :
  isRunning (self w) = false ->
  (r < length (store w))%nat ->
  read (store (fst (fst (start now env w)))) r = read (store w) r
  /\ (r < historyRef (fst (fst (start now env w))))%nat.
Proof.
  intros Hrun Hr.
  destruct (start_cases now env w) as [[H _] | [[_ [e ->]] | [_ ->]]];
    [congruence | |]; cbn [fst].
  - destruct (restarted_store now w) as [-> ->].
    split; [now apply read_app_old | assumption].
  - unfold armed, historyRef. cbn [self state store].
    fold (historyRef (fst (fst (executeOrder env (restarted now w))))).
    destruct (executeOrder_store env (restarted now w)) as [-> _].
    destruct (restarted_store now w) as [E1 E2].
    destruct (executeOrder_other_arrays env (restarted now w) r) as [-> _];
      [rewrite E1; lia |].
    rewrite E1, E2. split; [now apply read_app_old | assumption].
Qed.

Lemma apply_other_arrays w op r :
  WellFormed w -> (r < length (store w))%nat -> r <> historyRef w ->
  read (store (apply w op)) r = read (store w) r
  /\ (r < length (store (apply w op)))%nat
  /\ r <> historyRef (apply w op).
Proof.
  intros Hw Hr Hne. pose proof (WellFormed_apply w op Hw) as Hw'.
  unfold WellFormed in Hw'. fold (historyRef (apply w op)) in Hw'.
  destruct op as [now env | env |]; cbn [apply] in *.
  - destruct (isRunning (self w)) eqn:Hrun.
    + rewrite (start_running now env w Hrun) in *. cbn [fst] in *.
      repeat split; assumption.
    + destruct (start_old_arrays now env w r Hrun Hr) as [E Hlt].
      repeat split; [assumption | lia | lia].
  - destruct (executeOrder_other_arrays env w r Hne) as [E1 E2].
    destruct (executeOrder_store env w) as [E3 _].
    rewrite E1, E2, E3. repeat split; assumption.
  - unfold historyRef. rewrite state_stop.
    assert (store (stop w) = store w) as -> by (unfold stop; now destruct (negb _)).
    repeat split; assumption.
Qed.

Lemma run_other_arrays ops : forall w r,
  WellFormed w -> (r < length (store w))%nat -> r <> historyRef w ->
  read (store (run ops w)) r = read (store w) r
  /\ r <> historyRef (run ops w).
Proof.
  induction ops as [| op ops IH]; intros w r Hw Hr Hne; [now split |].
  cbn [run fold_left]. fold (run ops (apply w op)).
  destruct (apply_other_arrays w op r Hw Hr Hne) as (E & Hr' & Hne').
  destruct (IH (apply w op) r (WellFormed_apply w op Hw) Hr' Hne') as [E' Hne''].
  split; [congruence | assumption].
Qed.

(** X3.  start() on a stopped engine gives the engine a new order array.
    The array of the run before - the one a caller still holds in a
    snapshot from getState() - keeps its records and is never changed
    again, whatever the engine does afterwards; it is no longer the
    history of the engine. *)
Theorem restart_leaves_old_history c now h before now' env after :
  isActive (run before (create c now h)) = false ->
  read (store (run (Start now' env :: after) (run before (create c now h))))
       (TWAPState.orders (getState (run before (create c now h))))
  = ordersOf (run before (create c now h))
  /\ TWAPState.orders
       (getState (run (Start now' env :: after) (run before (create c now h))))
     <> TWAPState.orders (getState (run before (create c now h))).
Proof.
  set (w := run before (create c now h)). intros Hrun.
  assert (WellFormed w) as Hw by apply WellFormed_run, WellFormed_create.
  change (TWAPState.orders (getState w)) with (historyRef w).
  change (TWAPState.orders (getState (run (Start now' env :: after) w)))
    with (historyRef (run (Start now' env :: after) w)).
  cbn [run fold_left apply]. fold (run after (fst (fst (start now' env w)))).
  destruct (start_old_arrays now' env w (historyRef w) Hrun Hw) as [E Hlt].
  pose proof (WellFormed_apply w (Start now' env) Hw) as Hw1.
  cbn [apply] in Hw1.
  destruct (run_other_arrays after (fst (fst (start now' env w))) (historyRef w) Hw1)
    as [E' Hne].
  - unfold WellFormed in Hw1. fold (historyRef (fst (fst (start now' env w)))) in Hw1. lia.
  - lia.
  - split; [| auto]. rewrite E', E. reflexivity.
Qed.

End Runs.

(** * The orders that the engine submits *)

Module Orders.
Import JS TWAPStrategy Spec Numerals Rounding Engine Runs.
Local Open Scope Q_scope.

(** ** What goes to the gateway *)

Lemma executeOrder_calls env w :
  snd (fst (executeOrder env w)) = []
  \/ stepCalls (config (self w)) (snd (fst (executeOrder env w))).
Proof.
  destruct (executeOrder_outcome env w); try (now left); right.
  - now left.
  - right. eexists _, _. reflexivity.
  - right. eexists _, _. reflexivity.
Qed.

Lemma callsOf_cases w op :
  callsOf w op = [] \/ stepCalls (config (self w)) (callsOf w op).
Proof.
  destruct op as [now env | env |]; cbn [callsOf]; [| apply executeOrder_calls | now left].
  destruct (start_cases now env w) as [[_ ->] | [[_ [e ->]] | [_ ->]]];
    cbn [fst snd]; [now left | now left |].
  apply (executeOrder_calls env (restarted now w)).
Qed.

Lemma trace_blocks ops : forall w,
  exists blocks,
    trace ops w = concat blocks /\ Forall (stepCalls (config (self w))) blocks.
Proof.
  induction ops as [| op ops IH]; intros w.
  { exists []. split; [reflexivity | constructor]. }
  destruct (IH (apply w op)) as (blocks & E & Hb). rewrite apply_config in Hb.
  cbn [trace]. rewrite E.
  destruct (callsOf_cases w op) as [-> | Hc].
  - exists blocks. split; [reflexivity | assumption].
  - exists (callsOf w op :: blocks). split; [reflexivity | now constructor].
Qed.

(** X4.  All that the engine ever asks of the gateway, in any run from its
    construction, is a sequence of steps, each of them a request of the
    market price of the configured pair, followed or not by one order: a
    limit order with a price to buy that pair.  It never sells, never
    sends a market order or an order without price, never orders another
    pair, and never orders without having asked the price in the same
    step. *)
Theorem only_priced_buy_orders c now h ops :
  (exists blocks,
     trace ops (create c now h) = concat blocks /\ Forall (stepCalls c) blocks)
  /\ forall p, In (PlaceOrder p) (trace ops (create c now h)) ->
       BluefinOrderParams.pair p = TWAPConfig.pair c
       /\ BluefinOrderParams.side p = buy
       /\ BluefinOrderParams.orderType p = limit
       /\ BluefinOrderParams.price p <> None.
Proof.
  destruct (trace_blocks ops (create c now h)) as (blocks & E & Hb).
  rewrite create_config in Hb. split; [now exists blocks |].
  intros p Hp. rewrite E in Hp. apply in_concat in Hp as (b & Hin & Hp).
  rewrite List.Forall_forall in Hb. specialize (Hb b Hin).
  destruct Hb as [-> | (size & price & ->)]; cbn [In] in Hp.
  - destruct Hp as [Hp | []]. discriminate.
  - destruct Hp as [Hp | [Hp | []]]; [discriminate |].
    injection Hp as <-. cbn. repeat split. discriminate.
Qed.

(** The order of a step, and what the step has checked before. *)
Lemma placed_order env w p :
  In (PlaceOrder p) (snd (fst (executeOrder env w))) ->
  exists nominal price,
    isRunning (self w) = true
    /\ le (remainingOf w) (of_Z 0) = false
    /\ ge (of_Z (clockAtCheck env)) (TWAPState.endTime (state (self w))) = false
    /\ calculateOrderSize (config (self w)) = Ok nominal
    /\ tooSmall (config (self w)) (actualSize nominal (remainingOf w)) (remainingOf w)
       = false
    /\ marketPrice env = Ok price
    /\ p = orderParams (config (self w)) (actualSize nominal (remainingOf w)) price.
Proof.
  unfold executeOrder. fold (remainingOf w).
  destruct (isRunning (self w)); cbn [negb]; [| intros []].
  destruct (le (remainingOf w) (of_Z 0)); [intros [] |].
  destruct (ge _ _); [intros [] |].
  destruct (calculateOrderSize (config (self w))) as [nominal | e]; [| intros []].
  destruct (tooSmall _ _ _) eqn:Hsmall; [intros [] |].
  destruct (marketPrice env) as [price | e];
    [| intros [H | []]; discriminate].
  assert (In (PlaceOrder p)
            [GetMarketPrice (TWAPConfig.pair (config (self w)));
             PlaceOrder (orderParams (config (self w))
                           (actualSize nominal (remainingOf w)) price)] ->
          p = orderParams (config (self w)) (actualSize nominal (remainingOf w)) price)
    as Hin.
  { intros [H | [H | []]]; [discriminate | now injection H as <-]. }
  intros H. exists nominal, price.
  repeat split; try reflexivity; try assumption.
  destruct (placement env); cbn [fst snd] in H; now apply Hin.
Qed.

(** ** The size of an order *)

Lemma round_to_monotone d a b : 0 <= a -> a <= b -> round_to d a <= round_to d b.
Proof.
  intros Ha Hab. unfold round_to.
  rewrite (proj2 (Qltb_ge a 0)) by assumption.
  rewrite (proj2 (Qltb_ge b 0)) by lra.
  pose proof (scale_pos d) as Hs.
  assert (0 < / scale d) as Hi by (now apply Qinv_lt_0_compat).
  assert (round_units d a <= round_units d b)%Z as Hu.
  { unfold round_units. apply Qfloor_resp_le. fold (scale d).
    rewrite !Qabs_pos by lra. nra. }
  rewrite Zle_Qle in Hu. nra.
Qed.

Lemma round_to_nonneg d a : 0 <= a -> 0 <= round_to d a.
Proof.
  intros Ha. unfold round_to. rewrite (proj2 (Qltb_ge a 0)) by assumption.
  pose proof (scale_pos d) as Hs.
  assert (0 < / scale d) as Hi by (now apply Qinv_lt_0_compat).
  pose proof (round_units_nonneg d a) as Hu. rewrite Zle_Qle in Hu.
  change (inject_Z 0) with 0 in Hu. nra.
Qed.

Lemma le_zero_pos x : le (Num x) (of_Z 0) = false -> 0 < x.
Proof.
  cbn. intros H. apply not_true_iff_false in H. rewrite Qle_bool_iff in H.
  change (inject_Z 0) with 0 in H. lra.
Qed.

(** The number of the nominal size lies between zero and the largest
    order size rounded to 8 digits, once rounded itself. *)
Lemma nominal_bounds c f nominal x :
  Valid c f -> calculateOrderSize c = Ok nominal -> parseFloat nominal = Num x ->
  0 <= x /\ round_to 8 x <= round_to 8 (largest f).
Proof.
  intros V Hn Hx. rewrite (calculateOrderSize_valid c f V) in Hn.
  pose proof (valid_min_pos c f V). pose proof (valid_min_le_max c f V).
  destruct (Qltb (rawSize f) (smallest f)) eqn:E1.
  { injection Hn as <-. rewrite (valid_min c f V) in Hx. injection Hx as <-.
    split; [lra |]. apply round_to_monotone; lra. }
  destruct (Qltb (largest f) (rawSize f)) eqn:E2.
  { injection Hn as <-. rewrite (valid_max c f V) in Hx. injection Hx as <-.
    split; [lra |]. apply round_to_monotone; lra. }
  assert (nominal = toFixed 8 (Num (rawSize f))) as -> by congruence.
  rewrite parseFloat_toFixed in Hx. injection Hx as <-.
  apply Qltb_ge in E1, E2.
  split; [apply round_to_nonneg; lra |].
  rewrite (round_to_grid 8 (round_to 8 (rawSize f))) by apply round_to_on_grid.
  apply round_to_monotone; lra.
Qed.


(** ** The price of an order *)


(** ** An order for all that remains *)

Lemma remainder_after_whole_order nominal x r :
  parseFloat nominal = Num x -> on_grid 8 r -> r <= x ->
  toFixed 8 (sub (Num r) (parseFloat (actualSize nominal (Num r)))) = "0.00000000".
Proof.
  intros Hx Hg Hrx. unfold actualSize. rewrite Hx, min_num, parseFloat_toFixed.
  cbn [sub opp add].
  assert (round_to 8 (if Qltb r x then r else x) == r) as E.
  { destruct (Qltb r x) eqn:E; [now apply round_to_grid |].
    apply Qltb_ge in E. assert (x == r) as Exr by lra.
    rewrite round_to_grid; [assumption |].
    destruct Hg as [k Hk]. exists k. now rewrite Exr. }
  rewrite (toFixed_proper 8 _ 0) by (rewrite E; ring).
  vm_compute. reflexivity.
Qed.

(** X7.  An order for the whole remainder to which the venue answers
    without a filled size is taken as filled in full: when the remaining
    amount has at most 8 fractional digits and does not exceed the nominal
    order size, the step that gets an answer to its order leaves the
    remaining amount at 0.00000000 with the engine still running, and the
    next timer tick, whatever the gateway would answer, stops the engine
    without any call on the gateway. *)
Theorem whole_remainder_then_stop env w nominal x r response :
  orderAnswered env w ->
  placement env = Ok response ->
  truthy_opt (BluefinOrderResponse.filledSize response) = false ->
  calculateOrderSize (config (self w)) = Ok nominal ->
  parseFloat nominal = Num x ->
  remainingOf w = Num r ->
  on_grid 8 r ->
  r <= x ->
  TWAPState.remainingAmount (state (self (fst (fst (executeOrder env w)))))
  = "0.00000000"
  /\ isActive (fst (fst (executeOrder env w))) = true
  /\ forall env',
       executeOrder env' (fst (fst (executeOrder env w)))
       = (stop (fst (fst (executeOrder env w))), [], Ok tt)
       /\ isActive (stop (fst (fst (executeOrder env w)))) = false.
Proof.
  intros (Hcalls & [price Hprice] & _) Hplace Hfilled Hn Hx Hr Hg Hrx.
  destruct (executeOrder_outcome env w) as
    [ | | | ? ? _ _ _ Hp | ? ? ? _ _ _ _ Hp
      | nominal' price' response' Hrun _ Hn' _ _ Hplace' ];
    try (now contradiction Hcalls); try congruence.
  rewrite Hn in Hn'. injection Hn' as <-.
  rewrite Hplace in Hplace'. injection Hplace' as <-.
  assert (TWAPState.remainingAmount
            (state (self (foldResponse w (remainingOf w)
               (actualSize nominal (remainingOf w)) price' (clockAtOrder env) response)))
          = "0.00000000") as E.
  { unfold foldResponse. cbn [self state].
    destruct (amounts_updateAverage
                (setAmounts (state (self w))
                   (toFixed 8 (add (parseFloat (TWAPState.executedAmount (state (self w))))
                                   (foldedAmount (actualSize nominal (remainingOf w)) response)))
                   (toFixed 8 (sub (remainingOf w)
                                   (foldedAmount (actualSize nominal (remainingOf w)) response))))
                (push (store w) (TWAPState.orders (state (self w)))
                   (recordOf (config (self w)) (actualSize nominal (remainingOf w))
                      price' (clockAtOrder env) response)))
      as (_ & _ & ->).
    cbn [setAmounts TWAPState.remainingAmount].
    unfold foldedAmount. rewrite Hfilled, Hr.
    now apply (remainder_after_whole_order nominal x r). }
  split; [exact E |]. split; [exact Hrun |].
  intros env'. split; [| apply isRunning_stop].
  unfold executeOrder at 1. rewrite E.
  replace (isRunning (self (foldResponse w (remainingOf w)
             (actualSize nominal (remainingOf w)) price' (clockAtOrder env) response)))
    with true by (symmetry; exact Hrun).
  reflexivity.
Qed.

End Orders.

(** * Starting and ending *)

Module Lifecycle.
Import JS TWAPStrategy Spec Numerals Rounding Engine Runs Orders.
Local Open Scope Q_scope.

(** ** The end time *)

Lemma times_updateAverage st h :
  TWAPState.startTime (updateAverageExecutionPrice st h) = TWAPState.startTime st
  /\ TWAPState.endTime (updateAverageExecutionPrice st h) = TWAPState.endTime st.
Proof.
  unfold updateAverageExecutionPrice.
  destruct (_ =? _)%nat; [now split |].
  destruct (fold_left _ _ _) as [v z]. destruct (gt z _); now split.
Qed.

Lemma executeOrder_times env w :
  TWAPState.startTime (state (self (fst (fst (executeOrder env w)))))
  = TWAPState.startTime (state (self w))
  /\ TWAPState.endTime (state (self (fst (fst (executeOrder env w)))))
     = TWAPState.endTime (state (self w)).
Proof.
  destruct (executeOrder_outcome env w); try (now split).
  - now rewrite state_stop.
  - unfold foldResponse. cbn [self state].
    match goal with
    | |- context [updateAverageExecutionPrice ?st ?h] =>
        destruct (times_updateAverage st h) as [-> ->]
    end.
    now split.
Qed.

Lemma Timed_restarted now w : Timed (config (self w)) (state (self (restarted now w))).
Proof. exists now. split; reflexivity. Qed.

Lemma Timed_executeOrder c env w :
  Timed c (state (self w)) -> Timed c (state (self (fst (fst (executeOrder env w))))).
Proof.
  intros (t0 & E1 & E2). exists t0.
  destruct (executeOrder_times env w) as [-> ->]. now split.
Qed.

Lemma Timed_apply w op :
  Timed (config (self w)) (state (self w)) ->
  Timed (config (self w)) (state (self (apply w op))).
Proof.
  intros H. destruct op as [now env | env |]; cbn [apply].
  - destruct (start_cases now env w) as [[_ ->] | [[_ [e ->]] | [_ ->]]];
      cbn [fst]; [assumption | apply Timed_restarted |].
    unfold armed. cbn [self state].
    apply (Timed_executeOrder (config (self w)) env (restarted now w)).
    apply Timed_restarted.
  - now apply Timed_executeOrder.
  - now rewrite state_stop.
Qed.

Lemma Timed_run ops : forall w,
  Timed (config (self w)) (state (self w)) ->
  Timed (config (self w)) (state (self (run ops w))).
Proof.
  induction ops as [| op ops IH]; intros w H; [assumption |].
  cbn [run fold_left]. fold (run ops (apply w op)).
  rewrite <- (apply_config w op). apply IH. rewrite apply_config.
  now apply Timed_apply.
Qed.

(** X8.  In every state that the engine reaches after its construction,
    the end time is the start time plus 1000 times the configured
    duration, the start time being the clock at the construction or at
    the last start() that took effect; and a timer tick whose clock has
    reached the end time makes no call on the gateway, leaves the amounts
    and the history as they are, and leaves the engine stopped. *)
Theorem no_call_after_end_time c d now h ops env :
  TWAPConfig.duration c = Num d ->
  exists t0 : Z,
    TWAPState.startTime (getState (run ops (create c now h))) = of_Z t0
    /\ TWAPState.endTime (getState (run ops (create c now h)))
       = Num (inject_Z t0 + d * 1000)
    /\ (inject_Z t0 + d * 1000 <= inject_Z (clockAtCheck env) ->
        snd (fst (executeOrder env (run ops (create c now h)))) = []
        /\ isActive (fst (fst (executeOrder env (run ops (create c now h))))) = false
        /\ state (self (fst (fst (executeOrder env (run ops (create c now h))))))
           = state (self (run ops (create c now h)))
        /\ ordersOf (fst (fst (executeOrder env (run ops (create c now h)))))
           = ordersOf (run ops (create c now h))).
Proof.
  intros Hd. set (w := run ops (create c now h)).
  assert (Timed c (state (self w))) as (t0 & E1 & E2).
  { unfold w. rewrite <- (create_config c now h) at 1. apply Timed_run.
    rewrite create_config. exists now. split; reflexivity. }
  rewrite Hd in E2. cbn [of_Z add mul] in E2.
  exists t0. split; [exact E1 |]. split; [exact E2 |].
  intros Hlate. unfold executeOrder. rewrite E2.
  destruct (isRunning (self w)) eqn:Hrun; cbn [negb fst snd].
  - assert (ge (of_Z (clockAtCheck env)) (Num (inject_Z t0 + d * inject_Z 1000)) = true)
      as ->.
    { cbn. apply Qle_bool_iff. exact Hlate. }
    destruct (le _ _); cbn [fst snd];
      (repeat split; [apply isRunning_stop | apply state_stop | apply ordersOf_stop]).
  - repeat split. exact Hrun.
Qed.

(** ** A start that fails *)

Lemma no_order_count c d i :
  TWAPConfig.duration c = Num d -> TWAPConfig.interval c = Num i ->
  0 <= d -> d < i ->
  calculateOrderSize c = Throw "Duration must be greater than interval".
Proof.
  intros Hd Hi H0 Hlt. unfold calculateOrderSize, calculateNumberOfOrders.
  rewrite Hd, Hi. cbn [div].
  assert (Qeq_bool i 0 = false) as ->
    by (apply not_true_iff_false; rewrite Qeq_bool_iff; lra).
  cbn [floor].
  assert (Qfloor (d / i) = 0%Z) as ->.
  { apply Qfloor_unique.
    - change (inject_Z 0) with 0. apply Qle_shift_div_l; lra.
    - change (inject_Z 0 + 1) with 1. apply Qlt_shift_div_r; lra. }
  reflexivity.
Qed.

Lemma no_call_without_size e ops : forall w,
  calculateOrderSize (config (self w)) = Throw e -> trace ops w = [].
Proof.
  induction ops as [| op ops IH]; intros w H; [reflexivity |].
  cbn [trace]. rewrite IH by (now rewrite apply_config).
  rewrite app_nil_r.
  assert (forall env w', config (self w') = config (self w) ->
            snd (fst (executeOrder env w')) = []) as Hstep.
  { intros env w' Hc.
    destruct (executeOrder_outcome env w'); try reflexivity; congruence. }
  destruct op as [now env | env |]; cbn [callsOf]; [| now apply Hstep | reflexivity].
  destruct (start_cases now env w) as [[_ ->] | [[_ [e' ->]] | [_ ->]]];
    cbn [fst snd]; try reflexivity.
  now apply Hstep.
Qed.

(** X9.  When the interval is longer than the duration (a configuration
    that validateTWAPConfig refuses, given to the engine directly),
    start() on a stopped engine throws 'Duration must be greater than
    interval' after it has marked the engine as running: isActive() is
    true although no timer has been armed, a second start() returns at
    once as for an engine that is already running, and whatever is done
    with the engine afterwards it never makes a call on the gateway. *)
Theorem failed_start_leaves_engine_running w d i now env :
  isActive w = false ->
  TWAPConfig.duration (config (self w)) = Num d ->
  TWAPConfig.interval (config (self w)) = Num i ->
  0 <= d -> d < i ->
  start now env w
  = (restarted now w, [], Throw "Duration must be greater than interval")
  /\ isActive (restarted now w) = true
  /\ intervalTimer (self (restarted now w)) = intervalTimer (self w)
  /\ (forall now' env',
        start now' env' (restarted now w) = (restarted now w, [], Ok tt))
  /\ (forall ops, trace ops (restarted now w) = []).
Proof.
  intros Hrun Hd Hi H0 Hlt.
  pose proof (no_order_count (config (self w)) d i Hd Hi H0 Hlt) as E.
  split; [now apply start_throws |]. split; [reflexivity |].
  split; [reflexivity |]. split.
  - intros now' env'. now apply start_running.
  - intros ops. apply (no_call_without_size _ ops (restarted now w) E).
Qed.

(** ** A start that ends at once *)

Lemma negligible_total_stops c f env w r :
  Valid c f ->
  (1 # 10000) < smallest f ->
  config (self w) = c ->
  isRunning (self w) = true ->
  remainingOf w = Num r ->
  r <= (1 # 10000) ->
  executeOrder env w = (stop w, [], Ok tt).
Proof.
  intros V Hmin Hc Hrun Hr Hr1.
  unfold executeOrder. fold (remainingOf w). rewrite Hrun, Hr, Hc. cbn [negb].
  destruct (le (Num r) (of_Z 0)); [reflexivity |].
  destruct (ge _ _); [reflexivity |].
  destruct (calculateOrderSize_number c f V) as (s & x & -> & Hx).
  assert (tooSmall c (actualSize s (Num r)) (Num r) = true) as ->; [| reflexivity].
  unfold tooSmall, actualSize. rewrite Hx, min_num, parseFloat_toFixed.
  rewrite (valid_min c f V). cbn [lt gt negligible].
  apply andb_true_intro. split.
  - apply Qltb_lt. apply Qle_lt_trans with (1 # 10000); [| assumption].
    rewrite negligible_on_grid. apply round_to_le_grid.
    rewrite <- negligible_on_grid. destruct (Qltb r x) eqn:E; [lra |].
    apply Qltb_ge in E. lra.
  - apply negb_true_iff. apply Qltb_ge. lra.
Qed.

(** X10.  For a valid configuration whose total amount is at most 0.0001
    and whose minimal order size is above 0.0001, start() on a stopped
    engine places no order and makes no call on the gateway: its first
    step stops the engine.  start() then arms the interval timer all the
    same and returns normally, so that the engine is stopped with its
    timer armed; as stop() returns at once on a stopped engine, no later
    timer tick or call of stop() clears that timer or changes anything
    else. *)
Theorem early_stop_leaves_timer_armed c f now env w ops :
  Valid c f ->
  total f <= (1 # 10000) ->
  (1 # 10000) < smallest f ->
  config (self w) = c ->
  isActive w = false ->
  startFree ops = true ->
  snd (start now env w) = Ok tt
  /\ snd (fst (start now env w)) = []
  /\ isActive (fst (fst (start now env w))) = false
  /\ intervalTimer (self (fst (fst (start now env w)))) = Some (period c)
  /\ run ops (fst (fst (start now env w))) = fst (fst (start now env w)).
Proof.
  intros V Htot Hmin Hc Hrun Hs.
  destruct (calculateOrderSize_number c f V) as (s & x & Hn & _).
  rewrite <- Hc in Hn.
  rewrite (start_steps now env w s Hrun Hn). cbn [fst snd].
  assert (executeOrder env (restarted now w) = (stop (restarted now w), [], Ok tt))
    as ->.
  { apply (negligible_total_stops c f env (restarted now w) (total f) V Hmin);
      [exact Hc | reflexivity | | exact Htot].
    unfold remainingOf, restarted. cbn. rewrite Hc. apply (valid_total c f V). }
  cbn [fst snd]. rewrite Hc.
  split; [reflexivity |]. split; [reflexivity |].
  split; [reflexivity |]. split; [reflexivity |].
  apply run_idle; [reflexivity | exact Hs].
Qed.

End Lifecycle.

(** * The configuration *)

Module Configuration.
Import JS BluefinClient TWAPStrategy Spec Numerals Rounding Engine Runs Orders.
Local Open Scope Q_scope.

(** Takes the branch of a test of the validation that does not throw. *)
Ltac passes E :=
  match goal with
  | |- (if ?b then _ else _) = _ -> _ =>
      destruct b eqn:E; [intros H; discriminate H |]
  end.

Lemma truthy_nonempty s : truthy s = true -> s <> "".
Proof. now destruct s. Qed.

(** X11.  On a configuration whose amounts read as numbers and whose
    duration, interval and slippage tolerance are finite numbers,
    validateTWAPConfig returns normally exactly when the configuration is
    valid: the pair is not empty, the total amount, the duration, the
    interval and both order sizes are above zero, the interval does not
    exceed the duration, the slippage tolerance lies between 0 and 1, and
    the minimal order size does not exceed the maximal one. *)
Theorem validation_accepts_valid_only c f :
  parseFloat (TWAPConfig.totalAmount c) = Num (total f) ->
  TWAPConfig.duration c = Num (seconds f) ->
  TWAPConfig.interval c = Num (every f) ->
  TWAPConfig.slippageTolerance c = Num (slippage f) ->
  parseFloat (TWAPConfig.minOrderSize c) = Num (smallest f) ->
  parseFloat (TWAPConfig.maxOrderSize c) = Num (largest f) ->
  validateTWAPConfig c = Ok tt <-> Valid c f.
Proof.
  intros Ht Hd Hi Hs Hmin Hmax. split; [| apply valid_passes_validation].
  unfold validateTWAPConfig.
  rewrite Ht, Hd, Hi, Hs, Hmin, Hmax. unfold gt. cbn [truthy_number lt of_Z].
  destruct (truthy (TWAPConfig.pair c)) eqn:Hp; cbn [negb];
    [| intros H; discriminate H].
  passes E1. passes E2. passes E3. passes E4. passes E5. passes E6. passes E7.
  passes E8.
  intros _.
  apply orb_false_elim in E1 as [_ E1], E2 as [_ E2], E3 as [_ E3],
    E5 as [E5 E5'], E6 as [_ E6], E7 as [_ E7].
  apply (le_zero_pos (total f)) in E1. apply (le_zero_pos (seconds f)) in E2.
  apply (le_zero_pos (every f)) in E3. apply (le_zero_pos (smallest f)) in E6.
  apply Qltb_ge in E4, E5, E5', E8.
  change (inject_Z 0) with 0 in E5. change (inject_Z 1) with 1 in E5'.
  unfold lt in E4, E8.
  constructor; try assumption.
  - now apply truthy_nonempty.
  - split; assumption.
Qed.

Lemma validation_of_total c f s :
  Valid c f -> truthy s = true -> parseFloat s = NaN ->
  validateTWAPConfig (withTotalAmount c s) = Ok tt.
Proof.
  intros V Hs Hnan.
  pose proof (valid_passes_validation c f V) as H.
  unfold validateTWAPConfig in *.
  cbn [withTotalAmount TWAPConfig.pair TWAPConfig.totalAmount TWAPConfig.duration
       TWAPConfig.interval TWAPConfig.slippageTolerance TWAPConfig.minOrderSize
       TWAPConfig.maxOrderSize].
  rewrite Hs, Hnan. cbn [negb orb le].
  destruct (negb (truthy (TWAPConfig.pair c))); [discriminate |].
  destruct (negb (truthy (TWAPConfig.totalAmount c)) || _); [discriminate |].
  exact H.
Qed.

Lemma nominal_of_total c f s :
  Valid c f -> parseFloat s = NaN ->
  calculateOrderSize (withTotalAmount c s) = Ok "NaN".
Proof.
  intros V Hnan. unfold calculateOrderSize.
  replace (calculateNumberOfOrders (withTotalAmount c s))
    with (calculateNumberOfOrders c) by reflexivity.
  rewrite (calculateNumberOfOrders_valid c f V).
  pose proof (orderCount_pos c f V) as Hn.
  assert (eqb (Num (inject_Z (orderCount f))) (of_Z 0) = false) as ->.
  { unfold eqb, of_Z. apply not_true_iff_false. rewrite Qeq_bool_iff.
    rewrite inject_Z_injective. lia. }
  cbn [withTotalAmount TWAPConfig.totalAmount TWAPConfig.minOrderSize
       TWAPConfig.maxOrderSize].
  rewrite Hnan. unfold gt. cbn [div lt].
  destruct (parseFloat (TWAPConfig.maxOrderSize c)); reflexivity.
Qed.

(** X12.  validateTWAPConfig does not refuse a total amount that is not a
    number: when the total amount of a valid configuration is replaced by
    a non-empty string in which parseFloat finds no number, the
    validation still returns normally.  The engine started on it, asked
    the market price before the end time, submits an order whose size is
    the string 'NaN'; and placeOrder throws 'Invalid amount: NaN' on that
    order before it makes any request. *)
Theorem total_that_is_no_number c f s now h now' env price :
  Valid c f ->
  truthy s = true ->
  parseFloat s = NaN ->
  marketPrice env = Ok price ->
  inject_Z (clockAtCheck env) < inject_Z now' + seconds f * 1000 ->
  validateTWAPConfig (withTotalAmount c s) = Ok tt
  /\ exists p,
       snd (fst (start now' env (create (withTotalAmount c s) now h)))
       = [GetMarketPrice (TWAPConfig.pair c); PlaceOrder p]
       /\ BluefinOrderParams.size p = "NaN"
       /\ forall clock api,
            placeOrder clock api p = (Throw "Invalid amount: NaN", []).
Proof.
  intros V Hs Hnan Hprice Hclock.
  split; [now apply (validation_of_total c f) |].
  pose proof (nominal_of_total c f s V Hnan) as Hn.
  rewrite (start_steps now' env _ "NaN") by (try reflexivity; exact Hn).
  cbn [fst snd].
  exists (orderParams (withTotalAmount c s) "NaN" price).
  split; [| split; [reflexivity |]].
  - unfold executeOrder. cbn [restarted create initializeState alloc self state
      isRunning config fst snd negb TWAPState.remainingAmount TWAPState.endTime
      withTotalAmount TWAPConfig.totalAmount TWAPConfig.duration].
    rewrite Hnan. cbn [le].
    rewrite (valid_duration c f V). cbn [of_Z add mul ge le].
    assert (Qle_bool (inject_Z now' + seconds f * inject_Z 1000)
                     (inject_Z (clockAtCheck env)) = false) as ->.
    { apply not_true_iff_false. rewrite Qle_bool_iff.
      change (inject_Z 1000) with 1000. lra. }
    fold (withTotalAmount c s). rewrite Hn.
    assert (actualSize "NaN" NaN = "NaN") as -> by reflexivity.
    assert (tooSmall (withTotalAmount c s) "NaN" NaN = false) as ->.
    { unfold tooSmall. now assert (parseFloat "NaN" = NaN) as -> by reflexivity. }
    rewrite Hprice. destruct (placement env); reflexivity.
  - intros clock api. unfold placeOrder, orderPayload.
    cbn [orderParams BluefinOrderParams.size].
    now assert (toBluefinAmount "NaN" = Throw "Invalid amount: NaN") as ->
      by reflexivity.
Qed.

End Configuration.

(** * What the bot sees of the engine *)

Module Reports.
Import JS TWAPStrategy Spec Numerals Rounding Engine Runs.
Local Open Scope Q_scope.

(** ** The final statistics *)

Lemma accepted_counts l :
  Forall acceptedStatus l ->
  (length (List.filter (fun o => status_eqb (OrderExecution.status o) filled) l)
   + length (List.filter (fun o => status_eqb (OrderExecution.status o) pending) l)
   = length l)%nat.
Proof.
  induction 1 as [| o l [Ho | Ho] _ IH]; [reflexivity | |];
    cbn [List.filter]; rewrite Ho; cbn [status_eqb length]; lia.
Qed.

(** X13.  In the summary that logFinalStats writes, in any state that the
    engine reaches after its construction, the count of the filled orders
    and the count of the pending orders add up to the total count of
    orders: every order of the history is in one of the two. *)
Theorem summary_counts_every_order c now h ops :
  (filledOrders (logFinalStats (run ops (create c now h)))
   + pendingOrders (logFinalStats (run ops (create c now h)))
   = totalOrders (logFinalStats (run ops (create c now h))))%nat.
Proof.
  unfold logFinalStats. cbn [filledOrders pendingOrders totalOrders].
  apply accepted_counts, run_accepted.
  assert (ordersOf (create c now h) = []) as ->
    by apply (ordersOf_initializeState c now h None false).
  constructor.
Qed.

(** ** The monitor of the bot *)

Lemma toFixed_not_zero x : toFixed 8 x <> "0".
Proof.
  destruct x as [| q | []]; try discriminate.
  unfold toFixed.
  assert (0 <= round_units 8 q / 10 ^ Z.of_nat 8)%Z as H
    by (apply Z.div_pos; [apply round_units_nonneg | reflexivity]).
  destruct (digits_of_head _ H) as (ch & s & -> & _).
  destruct (Qltb q 0); cbn [String.append]; [discriminate |].
  intros E. injection E as _ E. destruct s; discriminate.
Qed.

Lemma remainderWritten_executeOrder c env w :
  remainderWritten c (state (self w)) ->
  remainderWritten c (state (self (fst (fst (executeOrder env w))))).
Proof.
  intros H. destruct (executeOrder_outcome env w); try assumption.
  - now rewrite state_stop.
  - right. unfold foldResponse. cbn [self state].
    match goal with
    | |- context [updateAverageExecutionPrice ?st ?h] =>
        destruct (amounts_updateAverage st h) as (_ & _ & ->)
    end.
    cbn [setAmounts TWAPState.remainingAmount]. eexists. reflexivity.
Qed.

Lemma remainderWritten_apply w op :
  remainderWritten (config (self w)) (state (self w)) ->
  remainderWritten (config (self w)) (state (self (apply w op))).
Proof.
  intros H. destruct op as [now env | env |]; cbn [apply].
  - destruct (start_cases now env w) as [[_ ->] | [[_ [e ->]] | [_ ->]]];
      cbn [fst]; [assumption | now left |].
    unfold armed. cbn [self state].
    apply (remainderWritten_executeOrder (config (self w)) env (restarted now w)).
    now left.
  - now apply remainderWritten_executeOrder.
  - now rewrite state_stop.
Qed.

Lemma remainderWritten_run ops : forall w,
  remainderWritten (config (self w)) (state (self w)) ->
  remainderWritten (config (self w)) (state (self (run ops w))).
Proof.
  induction ops as [| op ops IH]; intros w H; [assumption |].
  cbn [run fold_left]. fold (run ops (apply w op)).
  rewrite <- (apply_config w op). apply IH. rewrite apply_config.
  now apply remainderWritten_apply.
Qed.

Lemma validated_total_not_zero c :
  validateTWAPConfig c = Ok tt -> TWAPConfig.totalAmount c <> "0".
Proof.
  intros H E. unfold validateTWAPConfig in H. rewrite E in H.
  destruct (negb (truthy (TWAPConfig.pair c))); [discriminate H |].
  assert (negb (truthy "0") || le (parseFloat "0") (of_Z 0) = true) as E0
    by (vm_compute; reflexivity).
  rewrite E0 in H. discriminate H.
Qed.

(** X14.  The monitor that the bot starts beside the engine reports the
    completion when the engine is not running and the remaining amount of
    its state is the string '0'.  For a configuration that
    validateTWAPConfig accepts this never holds, in any state that the
    engine reaches after its construction: the remaining amount is the
    configured total amount, which is not '0', or a number written with 8
    fractional digits (0.00000000 when all is executed).  The completion
    is never reported. *)
Theorem monitor_never_sees_completion c now h ops :
  validateTWAPConfig c = Ok tt ->
  BuybackBot.seesCompletion (run ops (create c now h)) = false
  /\ TWAPState.remainingAmount (getState (run ops (create c now h))) <> "0".
Proof.
  intros V.
  assert (TWAPState.remainingAmount (state (self (run ops (create c now h)))) <> "0")
    as Hne.
  { pose proof (remainderWritten_run ops (create c now h)) as H.
    rewrite create_config in H.
    destruct H as [H | [x H]]; [now left | |]; rewrite H.
    - now apply validated_total_not_zero.
    - apply toFixed_not_zero. }
  split; [| exact Hne].
  unfold BuybackBot.seesCompletion.
  cbn [getState TWAPState.remainingAmount].
  apply String.eqb_neq in Hne. rewrite Hne. apply andb_false_r.
Qed.

End Reports.

(** * The requests of the gateway *)

Module Requests.
Import JS BluefinClient Spec Numerals Rounding Gateway.
Local Open Scope Q_scope.

(** ** The retry wrapper *)

(** X15.  executeWithRetry returns or throws what its last attempt
    returned or threw.  The attempts are numbered from 0 and there are at
    most three; every attempt before the last one failed with an error
    that isRetryableError accepts, and was followed by a sleep of 1000 ms
    times 2 to the power of its number; the last one succeeded, or failed
    with an error that isRetryableError refuses, or was the third.  The
    error 'Unknown error' of the last line is never thrown by the wrapper
    itself. *)
Theorem retry_outcome {T : Type} (fn : nat -> result T) :
  exists n,
    (n < 3)%nat
    /\ executeWithRetry fn = (fn n, schedule n)
    /\ (forall k, (k < n)%nat ->
          exists e, fn k = Throw e /\ isRetryableError e = true)
    /\ (forall e, fn n = Throw e -> isRetryableError e = true -> n = 2%nat).
Proof.
  unfold executeWithRetry, maxRetries, schedule.
  cbn -[isRetryableError Z.pow Z.mul].
  destruct (fn 0%nat) as [v0 | e0] eqn:F0.
  { exists 0%nat. rewrite F0. split; [lia |]. split; [reflexivity |].
    split; [lia | discriminate]. }
  destruct (isRetryableError e0) eqn:R0; cbn -[isRetryableError Z.pow Z.mul].
  2:{ exists 0%nat. rewrite F0. split; [lia |]. split; [reflexivity |].
      split; [lia |]. intros e E. injection E as <-. congruence. }
  assert (forall k, (k < 1)%nat ->
            exists e, fn k = Throw e /\ isRetryableError e = true) as H1.
  { intros k Hk. assert (k = 0%nat) as -> by lia. now exists e0. }
  destruct (fn 1%nat) as [v1 | e1] eqn:F1.
  { exists 1%nat. rewrite F1. split; [lia |]. split; [reflexivity |].
    split; [assumption | discriminate]. }
  destruct (isRetryableError e1) eqn:R1; cbn -[isRetryableError Z.pow Z.mul].
  2:{ exists 1%nat. rewrite F1. split; [lia |]. split; [reflexivity |].
      split; [assumption |]. intros e E. injection E as <-. congruence. }
  assert (forall k, (k < 2)%nat ->
            exists e, fn k = Throw e /\ isRetryableError e = true) as H2.
  { intros k Hk. assert (k = 0%nat \/ k = 1%nat) as [-> | ->] by lia;
      [now exists e0 | now exists e1]. }
  exists 2%nat. split; [lia |]. split; [| split; [assumption | reflexivity]].
  destruct (fn 2%nat) as [v2 | e2]; [reflexivity |].
  now destruct (isRetryableError e2).
Qed.

Lemma retry_last_attempt {T : Type} (fn : nat -> result T) :
  exists n, (n < 3)%nat /\ executeWithRetry fn = (fn n, schedule n).
Proof.
  unfold executeWithRetry, maxRetries, schedule.
  cbn -[isRetryableError Z.pow Z.mul].
  destruct (fn 0%nat) as [v0 | e0] eqn:F0.
  { exists 0%nat. rewrite F0. split; [lia | reflexivity]. }
  destruct (isRetryableError e0); cbn -[isRetryableError Z.pow Z.mul].
  2:{ exists 0%nat. rewrite F0. split; [lia | reflexivity]. }
  destruct (fn 1%nat) as [v1 | e1] eqn:F1.
  { exists 1%nat. rewrite F1. split; [lia | reflexivity]. }
  destruct (isRetryableError e1); cbn -[isRetryableError Z.pow Z.mul].
  2:{ exists 1%nat. rewrite F1. split; [lia | reflexivity]. }
  exists 2%nat. split; [lia |].
  destruct (fn 2%nat) as [v2 | e2]; [reflexivity |].
  now destruct (isRetryableError e2).
Qed.

(** Retried to the end: three attempts that all fail with errors that
    are retried. *)
Lemma retried_to_the_end {T : Type} (fn : nat -> result T) e0 e1 e2 :
  fn 0%nat = Throw e0 -> isRetryableError e0 = true ->
  fn 1%nat = Throw e1 -> isRetryableError e1 = true ->
  fn 2%nat = Throw e2 ->
  executeWithRetry fn = (Throw e2, schedule 2).
Proof.
  intros F0 R0 F1 R1 F2. unfold executeWithRetry, maxRetries, schedule.
  cbn -[isRetryableError Z.pow Z.mul].
  rewrite F0, R0. cbn -[isRetryableError Z.pow Z.mul].
  rewrite F1, R1. cbn -[isRetryableError Z.pow Z.mul].
  rewrite F2. now destruct (isRetryableError e2).
Qed.

(** ** The answers of the venue *)

Lemma prefix_app t : forall s1 s2,
  String.prefix t s1 = true -> String.prefix t (s1 ++ s2) = true.
Proof.
  induction t as [| ch t IH]; intros s1 s2 H.
  - destruct s1, s2; reflexivity.
  - destruct s1 as [| c1 s1]; [discriminate H |].
    cbn [String.append String.prefix] in *.
    destruct (ascii_dec ch c1); [now apply IH | discriminate H].
Qed.

Lemma includes_app s1 : forall s2 t,
  includes s1 t = true -> includes (s1 ++ s2) t = true.
Proof.
  induction s1 as [| c s1 IH]; intros s2 t H.
  - cbn [includes] in H. rewrite orb_false_r in H.
    destruct t; [| discriminate]. destruct s2; reflexivity.
  - cbn [includes String.append] in *. apply orb_prop in H as [H | H].
    + apply (prefix_app t (String c s1) s2) in H. cbn [String.append] in H.
      now rewrite H.
    + rewrite (IH s2 t H). apply orb_true_r.
Qed.

Lemma toLowerCase_app s1 s2 :
  toLowerCase (s1 ++ s2) = (toLowerCase s1 ++ toLowerCase s2)%string.
Proof. induction s1 as [| c s1 IH]; cbn; [reflexivity | now rewrite IH]. Qed.

Lemma server_error_is_retryable status errorText :
  serverError status = true ->
  exists e, callBluefinAPI (NotOk status errorText) = Throw e
            /\ isRetryableError e = true.
Proof.
  intros H. eexists. split; [reflexivity |].
  unfold isRetryableError.
  rewrite <- !string_app_assoc, toLowerCase_app.
  unfold serverError in H.
  apply orb_prop in H as [H | H]; [apply orb_prop in H as [H | H] |];
    apply Z.eqb_eq in H; subst status;
    apply existsb_exists.
  - exists "500". split; [cbn; tauto |]. apply includes_app. vm_compute. reflexivity.
  - exists "502". split; [cbn; tauto |]. apply includes_app. vm_compute. reflexivity.
  - exists "503". split; [cbn; tauto |]. apply includes_app. vm_compute. reflexivity.
Qed.

(** The wrapped call of a request whose answers are all server errors. *)
Lemma server_errors_exhaust {T : Type} (api : nat -> HttpAnswer)
    (read : nat -> ApiBody.t -> result T) :
  (forall k, exists status errorText,
     api k = NotOk status errorText /\ serverError status = true) ->
  exists e,
    executeWithRetry (fun attempt =>
      match callBluefinAPI (api attempt) with
      | Throw e => Throw e
      | Ok response => read attempt response
      end) = (Throw e, schedule 2)
    /\ callBluefinAPI (api 2%nat) = Throw e.
Proof.
  intros H.
  assert (forall k, exists e, callBluefinAPI (api k) = Throw e
                              /\ isRetryableError e = true) as H'.
  { intros k. destruct (H k) as (status & errorText & -> & Hs).
    now apply server_error_is_retryable. }
  destruct (H' 0%nat) as (e0 & E0 & R0). destruct (H' 1%nat) as (e1 & E1 & R1).
  destruct (H' 2%nat) as (e2 & E2 & R2).
  exists e2. split; [| assumption].
  apply (retried_to_the_end _ e0 e1 e2); try assumption.
  - now rewrite E0.
  - now rewrite E1.
  - now rewrite E2.
Qed.

(** X16.  An answer of the venue with the status 500, 502 or 503 is
    retried whatever its text says: when every request gets such an
    answer, each of getMarketPrice, getOrderStatus, cancelOrder and (for
    an order whose amounts can be converted) placeOrder makes three
    requests, sleeps 1000 ms after the first and 2000 ms after the second,
    and throws the error 'Bluefin API error: <status> <text>' of the
    third. *)
Theorem server_errors_are_retried clock api pair orderId params payload :
  (forall k, exists status errorText,
     api k = NotOk status errorText /\ serverError status = true) ->
  orderPayload params = Ok payload ->
  exists e,
    callBluefinAPI (api 2%nat) = Throw e
    /\ getMarketPrice api pair = (Throw e, schedule 2)
    /\ getOrderStatus api orderId = (Throw e, schedule 2)
    /\ cancelOrder api orderId = (Throw e, schedule 2)
    /\ placeOrder clock api params = (Throw e, schedule 2)
    /\ schedule 2 = [Call 0; Sleep 1000; Call 1; Sleep 2000; Call 2].
Proof.
  intros H Hp.
  destruct (server_errors_exhaust api
              (fun _ response =>
                 if truthy_opt (ApiBody.price response)
                 then fromBluefinAmount (orElse (ApiBody.price response) "")
                 else Throw "Failed to get market price") H) as (e & E1 & E).
  destruct (server_errors_exhaust api
              (fun _ response =>
                 Ok (BluefinOrderResponse.mk
                       (orElse (ApiBody.orderId response) orderId)
                       (orElse (ApiBody.status response) "unknown")
                       (ApiBody.filledSize response)
                       (ApiBody.averagePrice response))) H) as (e2 & E2 & E').
  destruct (server_errors_exhaust api (fun _ _ => Ok tt) H) as (e3 & E3 & E'').
  destruct (server_errors_exhaust api
              (fun attempt response =>
                 Ok (BluefinOrderResponse.mk
                       (orElse (ApiBody.orderId response)
                          ("order_" ++ bigint_toString (clock attempt))%string)
                       (orElse (ApiBody.status response) "pending")
                       (ApiBody.filledSize response)
                       (ApiBody.averagePrice response))) H) as (e4 & E4 & E''').
  assert (e2 = e) as -> by congruence. assert (e3 = e) as -> by congruence.
  assert (e4 = e) as -> by congruence.
  exists e. split; [assumption |]. split; [exact E1 |]. split; [exact E2 |].
  split; [exact E3 |]. split; [| reflexivity].
  unfold placeOrder. rewrite Hp. exact E4.
Qed.

(** ** Orders that cannot be converted *)

Lemma schedule_nonempty n : schedule n <> [].
Proof. unfold schedule. now destruct (retries n). Qed.

(** X17.  placeOrder converts the size and the price of the order before
    it makes any request: it makes no request at all exactly when one of
    the two conversions throws, and then it throws that error without
    retrying.  This is the case for a size in which parseFloat finds no
    number or a negative one: the error is 'Invalid amount: ' followed by
    the size. *)
Theorem unconvertible_order_makes_no_request clock api params :
  (snd (placeOrder clock api params) = []
   <-> exists e, orderPayload params = Throw e)
  /\ (forall e, orderPayload params = Throw e ->
        placeOrder clock api params = (Throw e, []))
  /\ (parseFloat (BluefinOrderParams.size params) = NaN
      \/ (exists x, parseFloat (BluefinOrderParams.size params) = Num x /\ x < 0) ->
      placeOrder clock api params
      = (Throw ("Invalid amount: " ++ BluefinOrderParams.size params)%string, [])).
Proof.
  assert (forall e, orderPayload params = Throw e ->
            placeOrder clock api params = (Throw e, [])) as H.
  { intros e E. unfold placeOrder. now rewrite E. }
  split; [| split; [exact H |]].
  - split.
    + unfold placeOrder. destruct (orderPayload params) as [payload | e].
      * match goal with
        | |- context [executeWithRetry ?fn] =>
            destruct (retry_last_attempt fn) as (n & _ & ->)
        end.
        cbn [snd]. intros E. now apply schedule_nonempty in E.
      * intros _. now exists e.
    + intros [e E]. now rewrite (H e E).
  - intros Hsize. apply H. unfold orderPayload.
    rewrite toBluefinAmount_rejects; [reflexivity |].
    destruct Hsize as [Hs | Hs]; [now left | right; now left].
Qed.

(** ** The market price *)



(** ** The answer to an order *)



End Requests.

(** * The keystore of the wallet *)

Module Keystores.
Import JS SuiWalletManager.

(** X20.  loadKeystore loads a key only from a keystore that has a
    private key in the clear.  When the parsed keystore has no privateKey
    property, or an empty one, loadKeystore throws, whatever the password:
    for a keystore with an encryptedPrivateKey and a password the error is
    'Failed to load keystore: Encrypted keystore decryption not yet
    implemented. Please use unencrypted keystore format.', and otherwise
    it is 'Failed to load keystore: Unsupported keystore format' (the
    schema ED25519 makes no difference), unless reading or parsing has
    failed before. *)
Theorem keystore_needs_plain_private_key {Bytes Keypair : Type}
    (os : Platform Bytes Keypair) keystorePath password data keystore :
  (if truthy_opt (KEYSTORE_DATA os)
   then data = decodeBase64 os (BluefinClient.orElse (KEYSTORE_DATA os) "")
   else readFileSync os keystorePath = Ok data) ->
  parseJSON os data = Ok keystore ->
  truthy_opt (privateKey keystore) = false ->
  loadKeystore os keystorePath password
  = Throw (if truthy_opt (encryptedPrivateKey keystore) && truthy_opt password
           then "Failed to load keystore: Encrypted keystore decryption not yet implemented. Please use unencrypted keystore format."
           else "Failed to load keystore: Unsupported keystore format").
Proof.
  intros Hdata Hparse Hkey. unfold loadKeystore, readKeypair.
  destruct (truthy_opt (KEYSTORE_DATA os)).
  - subst data. rewrite Hparse, Hkey. rewrite andb_false_r.
    destruct (truthy_opt (encryptedPrivateKey keystore) && truthy_opt password);
      vm_compute; reflexivity.
  - rewrite Hdata, Hparse, Hkey. rewrite andb_false_r.
    destruct (truthy_opt (encryptedPrivateKey keystore) && truthy_opt password);
      vm_compute; reflexivity.
Qed.

(** X24.  The password is never used to load a key: whether loadKeystore
    returns a key pair, and which, does not depend on the password that it
    is given.  The password only decides which error is thrown for a
    keystore that has an encryptedPrivateKey and no privateKey. *)
Theorem password_is_never_used {Bytes Keypair : Type}
    (os : Platform Bytes Keypair) keystorePath password password' :
  (forall keypair,
     loadKeystore os keystorePath password = Ok keypair <->
     loadKeystore os keystorePath password' = Ok keypair)
  /\ ((exists e, loadKeystore os keystorePath password = Throw e) <->
      (exists e, loadKeystore os keystorePath password' = Throw e)).
Proof.
  assert (forall p p' keypair,
            loadKeystore os keystorePath p = Ok keypair ->
            loadKeystore os keystorePath p' = Ok keypair) as H.
  { intros p p' keypair. unfold loadKeystore, readKeypair.
    destruct (if truthy_opt (KEYSTORE_DATA os) then _ else _) as [data | e];
      [| destruct (includes e "ENOENT"); discriminate].
    destruct (parseJSON os data) as [keystore | e];
      [| destruct (includes e "ENOENT"); discriminate].
    destruct (truthy_opt (privateKey keystore)); [trivial |].
    rewrite !andb_false_r.
    destruct (truthy_opt (encryptedPrivateKey keystore) && truthy_opt p);
      cbn [includes]; intros E;
      match type of E with
      | context [if ?b then _ else _] => destruct b; discriminate E
      end. }
  split.
  - intros keypair. split; apply H.
  - assert (forall p p',
              (exists e, loadKeystore os keystorePath p = Throw e) ->
              exists e, loadKeystore os keystorePath p' = Throw e) as H'.
    { intros p p' [e E].
      destruct (loadKeystore os keystorePath p') as [keypair |e'] eqn:E';
        [| now exists e'].
      apply (H p' p) in E'. congruence. }
    split; apply H'.
Qed.

End Keystores.

(** * The engine as a whole *)

Module Conduct.
Import JS BluefinClient TWAPStrategy Spec Numerals Rounding Engine Gateway.
Import Runs Orders.
Local Open Scope Q_scope.

(** ** A valid configuration *)

Lemma Armed_executeOrder env w :
  Armed w -> Armed (fst (fst (executeOrder env w))).
Proof.
  intros H. destruct (executeOrder_outcome env w); try assumption.
  intros Hrun. now rewrite isRunning_stop in Hrun.
Qed.

Lemma Armed_apply c f w op :
  Valid c f -> config (self w) = c -> Armed w -> Armed (apply w op).
Proof.
  intros V Hc H. destruct op as [now env | env |]; cbn [apply].
  - destruct (isRunning (self w)) eqn:Hrun.
    + now rewrite (start_running now env w Hrun).
    + destruct (calculateOrderSize_number c f V) as (s & x & Hn & _).
      rewrite <- Hc in Hn. rewrite (start_steps now env w s Hrun Hn).
      cbn [fst]. intros _. unfold armed. cbn [self intervalTimer config].
      now rewrite executeOrder_config.
  - now apply Armed_executeOrder.
  - intros Hrun. now rewrite isRunning_stop in Hrun.
Qed.

Lemma Armed_run c f ops : forall w,
  Valid c f -> config (self w) = c -> Armed w -> Armed (run ops w).
Proof.
  induction ops as [| op ops IH]; intros w V Hc H; [assumption |].
  cbn [run fold_left]. apply IH; [assumption | | ].
  - now rewrite apply_config.
  - now apply (Armed_apply c f).
Qed.

(** X21.  With a valid configuration the engine never throws: in every
    state that it reaches after its construction, start() returns
    normally, and so does every timer tick, whatever the gateway answers
    (no rejection escapes the callback of the timer).  And whenever the
    engine is running, its timer is armed, with a period of 1000 times
    the interval. *)
Theorem valid_engine_never_throws c f now h ops op :
  Valid c f ->
  resultOf (run ops (create c now h)) op = Ok tt
  /\ (isActive (run ops (create c now h)) = true ->
      intervalTimer (self (run ops (create c now h))) = Some (period c)).
Proof.
  intros V. set (w := run ops (create c now h)).
  assert (config (self w) = c) as Hc
    by (unfold w; now rewrite run_config, create_config).
  destruct (calculateOrderSize_number c f V) as (s & x & Hn & _).
  rewrite <- Hc in Hn. split.
  - destruct op as [now' env | env |]; cbn [resultOf]; [| | reflexivity].
    + destruct (isRunning (self w)) eqn:Hrun.
      * now rewrite (start_running now' env w Hrun).
      * now rewrite (start_steps now' env w s Hrun Hn).
    + now apply (executeOrder_returns env w s).
  - intros Hrun. rewrite <- Hc.
    apply (Armed_run c f ops (create c now h) V (create_config c now h));
      [| exact Hrun].
    intros H. discriminate H.
Qed.

(** ** The orders of the engine at the gateway *)

Lemma toBluefinAmount_of_toFixed x :
  0 <= x ->
  exists t, toBluefinAmount (toFixed 8 (Num x)) = Ok t /\ truthy t = true.
Proof.
  intros Hx. eexists. split.
  - apply (toBluefinAmount_accepts _ (round_to 8 x));
      [apply parseFloat_toFixed | now apply round_to_nonneg].
  - unfold bigint_toString.
    destruct (_ <? 0)%Z eqn:E; [reflexivity |]. apply Z.ltb_ge in E.
    destruct (digits_of_head _ E) as (ch & s & -> & _). reflexivity.
Qed.

Lemma toFixed_nonempty x : truthy (toFixed 8 x) = true.
Proof.
  destruct x as [| q | []]; try reflexivity.
  unfold toFixed.
  assert (0 <= round_units 8 q / 10 ^ Z.of_nat 8)%Z as H
    by (apply Z.div_pos; [apply round_units_nonneg | reflexivity]).
  destruct (digits_of_head _ H) as (ch & s & -> & _).
  now destruct (Qltb q 0).
Qed.

(** X22.  The orders that the engine builds pass the conversion of the
    gateway: for a valid configuration, a remaining amount that is a
    number and a market price that is a number not below zero, the size
    and the price of the order of a step are converted by placeOrder
    without error, so that placeOrder makes a request for it; it is never
    refused as an invalid amount. *)
Theorem engine_orders_are_convertible c f env w r price m p clock api :
  Valid c f ->
  config (self w) = c ->
  remainingOf w = Num r ->
  marketPrice env = Ok price ->
  parseFloat price = Num m ->
  0 <= m ->
  In (PlaceOrder p) (snd (fst (executeOrder env w))) ->
  (exists payload, orderPayload p = Ok payload)
  /\ snd (placeOrder clock api p) <> [].
Proof.
  intros V Hc Hr Hprice Hm Hm0 Hp.
  destruct (placed_order env w p Hp)
    as (nominal & price' & _ & Hle & _ & Hn & _ & Hprice' & ->).
  rewrite Hprice in Hprice'. injection Hprice' as <-.
  rewrite Hc in Hn. rewrite Hr in Hle |- *. apply le_zero_pos in Hle.
  destruct (calculateOrderSize_number c f V) as (s' & x & Hn' & Hx).
  rewrite Hn in Hn'. injection Hn' as <-.
  destruct (nominal_bounds c f nominal x V Hn Hx) as [Hx0 _].
  pose proof (valid_slippage_range c f V) as [Hs0 Hs1].
  assert (exists payload,
            orderPayload (orderParams (config (self w)) (actualSize nominal (Num r)) price)
            = Ok payload) as [payload E].
  { unfold orderPayload.
    cbn [orderParams BluefinOrderParams.size BluefinOrderParams.price
         BluefinOrderParams.pair BluefinOrderParams.side
         BluefinOrderParams.orderType truthy_opt orElse].
    unfold actualSize, limitPrice.
    rewrite Hx, min_num, Hc, Hm, (valid_slippage c f V). cbn [of_Z add mul].
    destruct (toBluefinAmount_of_toFixed (if Qltb r x then r else x))
      as (t1 & -> & _); [destruct (Qltb r x); lra |].
    destruct (toBluefinAmount_of_toFixed (m * (inject_Z 1 + slippage f)))
      as (t2 & E2 & _); [change (inject_Z 1) with 1; nra |].
    rewrite toFixed_nonempty, E2. eexists. reflexivity. }
  split; [now exists payload |].
  unfold placeOrder. rewrite E.
  match goal with
  | |- context [executeWithRetry ?fn] =>
      destruct (Requests.retry_last_attempt fn) as (n & _ & ->)
  end.
  cbn [snd]. apply Requests.schedule_nonempty.
Qed.

(** ** A second start *)

Lemma view_fields w w' :
  viewOf w = viewOf w' ->
  config (self w) = config (self w')
  /\ isRunning (self w) = isRunning (self w')
  /\ TWAPState.totalAmount (state (self w)) = TWAPState.totalAmount (state (self w'))
  /\ TWAPState.remainingAmount (state (self w))
     = TWAPState.remainingAmount (state (self w'))
  /\ TWAPState.executedAmount (state (self w))
     = TWAPState.executedAmount (state (self w'))
  /\ ordersOf w = ordersOf w'
  /\ TWAPState.startTime (state (self w)) = TWAPState.startTime (state (self w'))
  /\ TWAPState.endTime (state (self w)) = TWAPState.endTime (state (self w'))
  /\ TWAPState.averageExecutionPrice (state (self w))
     = TWAPState.averageExecutionPrice (state (self w')).
Proof.
  intros H.
  pose proof (f_equal viewConfig H). pose proof (f_equal viewActive H).
  pose proof (f_equal viewTotal H). pose proof (f_equal viewRemaining H).
  pose proof (f_equal viewExecuted H). pose proof (f_equal viewOrders H).
  pose proof (f_equal viewStart H). pose proof (f_equal viewEnd H).
  pose proof (f_equal viewAverage H). repeat split; assumption.
Qed.

Lemma viewOf_eq w :
  viewOf w
  = mkView (config (self w)) (isRunning (self w))
      (TWAPState.totalAmount (state (self w)))
      (TWAPState.remainingAmount (state (self w)))
      (TWAPState.executedAmount (state (self w))) (ordersOf w)
      (TWAPState.startTime (state (self w))) (TWAPState.endTime (state (self w)))
      (TWAPState.averageExecutionPrice (state (self w))).
Proof. reflexivity. Qed.

Lemma viewOf_stop w w' : viewOf w = viewOf w' -> viewOf (stop w) = viewOf (stop w').
Proof.
  intros H. apply view_fields in H as (H1 & H2 & H3 & H4 & H5 & H6 & H7 & H8 & H9).
  rewrite !viewOf_eq, !ordersOf_stop, !state_stop, !stop_config.
  rewrite !isRunning_stop. congruence.
Qed.

Lemma average_updateAverage st st' h h' :
  read h (TWAPState.orders st) = read h' (TWAPState.orders st') ->
  TWAPState.averageExecutionPrice st = TWAPState.averageExecutionPrice st' ->
  TWAPState.averageExecutionPrice (updateAverageExecutionPrice st h)
  = TWAPState.averageExecutionPrice (updateAverageExecutionPrice st' h').
Proof.
  intros Hr Ha. unfold updateAverageExecutionPrice. rewrite Hr.
  destruct (_ =? _)%nat; [assumption |].
  destruct (fold_left _ _ _) as [v z]. now destruct (gt z _).
Qed.

Lemma viewOf_foldResponse w w' rem size price clock response :
  WellFormed w -> WellFormed w' -> viewOf w = viewOf w' ->
  viewOf (foldResponse w rem size price clock response)
  = viewOf (foldResponse w' rem size price clock response).
Proof.
  intros Hw Hw' H.
  apply view_fields in H as (H1 & H2 & H3 & H4 & H5 & H6 & H7 & H8 & H9).
  rewrite !viewOf_eq, !ordersOf_foldResponse.
  rewrite !decide_True by assumption.
  unfold foldResponse. cbn [self state config isRunning].
  repeat match goal with
  | |- context [updateAverageExecutionPrice ?st ?h] =>
      let E := fresh in
      pose proof (amounts_updateAverage st h) as E;
      destruct E as (-> & -> & ->);
      let T := fresh in
      pose proof (Lifecycle.times_updateAverage st h) as T;
      destruct T as (-> & ->);
      let A := fresh "A" in
      set (A := TWAPState.averageExecutionPrice (updateAverageExecutionPrice st h))
  end.
  cbn [setAmounts TWAPState.totalAmount TWAPState.remainingAmount
       TWAPState.executedAmount TWAPState.startTime TWAPState.endTime].
  assert (A = A0) as ->.
  { subst A A0. apply average_updateAverage.
    - cbn [setAmounts TWAPState.orders]. rewrite !read_push_same.
      rewrite !decide_True by assumption. fold (ordersOf w) (ordersOf w').
      congruence.
    - cbn [setAmounts TWAPState.averageExecutionPrice]. assumption. }
  congruence.
Qed.

(** A step sees of the engine what the view holds. *)
Lemma executeOrder_view env w w' :
  WellFormed w -> WellFormed w' -> viewOf w = viewOf w' ->
  viewOf (fst (fst (executeOrder env w))) = viewOf (fst (fst (executeOrder env w')))
  /\ snd (fst (executeOrder env w)) = snd (fst (executeOrder env w')).
Proof.
  intros Hw Hw' H.
  pose proof (viewOf_stop w w' H) as Hstop.
  pose proof (fun size price =>
                viewOf_foldResponse w w' (remainingOf w) size price (clockAtOrder env))
    as Hfold.
  pose proof H as Hv.
  apply view_fields in H as (H1 & H2 & H3 & H4 & H5 & H6 & H7 & H8 & H9).
  assert (remainingOf w = remainingOf w') as Hrem
    by (unfold remainingOf; now rewrite H4).
  unfold executeOrder. fold (remainingOf w) (remainingOf w').
  rewrite <- H1, <- H2, <- H8, <- Hrem.
  destruct (isRunning (self w)); cbn [negb fst snd]; [| now split].
  destruct (le _ _); [now split |].
  destruct (ge _ _); [now split |].
  destruct (calculateOrderSize _) as [nominal | e]; [| now split].
  destruct (tooSmall _ _ _); [now split |].
  destruct (marketPrice env) as [price | e]; [| now split].
  destruct (placement env) as [response | e]; [| now split].
  cbn [fst snd]. split; [| reflexivity]. now apply Hfold.
Qed.

Lemma viewOf_restarted now w w' :
  config (self w) = config (self w') ->
  viewOf (restarted now w) = viewOf (restarted now w').
Proof.
  intros H. rewrite !viewOf_eq.
  assert (forall v, ordersOf (restarted now v) = []) as E
    by (intros v; apply ordersOf_initializeState).
  rewrite !E. unfold restarted.
  cbn [self config isRunning state store initializeState alloc fst snd
       TWAPState.totalAmount TWAPState.remainingAmount TWAPState.executedAmount
       TWAPState.startTime TWAPState.endTime TWAPState.averageExecutionPrice].
  now rewrite H.
Qed.

Lemma viewOf_armed p w : viewOf (armed p w) = viewOf w.
Proof. reflexivity. Qed.

Lemma start_view now env w w' :
  WellFormed w -> WellFormed w' -> viewOf w = viewOf w' ->
  viewOf (fst (fst (start now env w))) = viewOf (fst (fst (start now env w')))
  /\ snd (fst (start now env w)) = snd (fst (start now env w')).
Proof.
  intros Hw Hw' H. pose proof H as Hv.
  apply view_fields in H as (H1 & H2 & _).
  destruct (isRunning (self w)) eqn:Hrun; symmetry in H2.
  - rewrite (start_running now env w Hrun), (start_running now env w' H2).
    now split.
  - destruct (calculateOrderSize (config (self w))) as [s | e] eqn:E.
    + rewrite (start_steps now env w s Hrun E).
      rewrite H1 in E. rewrite (start_steps now env w' s H2 E).
      cbn [fst snd]. rewrite !viewOf_armed.
      apply executeOrder_view; try apply WellFormed_restarted.
      now apply viewOf_restarted.
    + rewrite (start_throws now env w e Hrun E).
      rewrite H1 in E. rewrite (start_throws now env w' e H2 E).
      cbn [fst snd]. split; [now apply viewOf_restarted | reflexivity].
Qed.

Lemma apply_view w w' op :
  WellFormed w -> WellFormed w' -> viewOf w = viewOf w' ->
  viewOf (apply w op) = viewOf (apply w' op) /\ callsOf w op = callsOf w' op.
Proof.
  intros Hw Hw' H. destruct op as [now env | env |]; cbn [apply callsOf].
  - now apply start_view.
  - now apply executeOrder_view.
  - split; [now apply viewOf_stop | reflexivity].
Qed.

Lemma run_view ops : forall w w',
  WellFormed w -> WellFormed w' -> viewOf w = viewOf w' ->
  viewOf (run ops w) = viewOf (run ops w') /\ trace ops w = trace ops w'.
Proof.
  induction ops as [| op ops IH]; intros w w' Hw Hw' H; [now split |].
  destruct (apply_view w w' op Hw Hw' H) as [Hv Hc].
  destruct (IH (apply w op) (apply w' op) (WellFormed_apply w op Hw)
              (WellFormed_apply w' op Hw') Hv) as [Hv' Ht].
  cbn [run fold_left trace]. split; [exact Hv' | congruence].
Qed.

(** Two stopped engines with the same configuration are the same after
    start(). *)
Lemma start_afresh now env w w' :
  isRunning (self w) = false -> isRunning (self w') = false ->
  config (self w) = config (self w') ->
  viewOf (fst (fst (start now env w))) = viewOf (fst (fst (start now env w')))
  /\ snd (fst (start now env w)) = snd (fst (start now env w')).
Proof.
  intros Hrun Hrun' Hc.
  destruct (calculateOrderSize (config (self w))) as [s | e] eqn:E.
  - rewrite (start_steps now env w s Hrun E).
    rewrite Hc in E. rewrite (start_steps now env w' s Hrun' E).
    cbn [fst snd]. rewrite !viewOf_armed.
    apply executeOrder_view; try apply WellFormed_restarted.
    now apply viewOf_restarted.
  - rewrite (start_throws now env w e Hrun E).
    rewrite Hc in E. rewrite (start_throws now env w' e Hrun' E).
    cbn [fst snd]. split; [now apply viewOf_restarted | reflexivity].
Qed.

(** X23.  start() on a stopped engine begins the whole buyback again.
    Nothing of what the engine did before counts: from that start() on,
    the amounts, the times, the average price, the history and the calls
    made on the gateway are, step by step, those of an engine that has
    just been constructed with the same configuration.  In particular the
    amount that was executed before is bought again. *)
Theorem restart_begins_again c now h before now' env after :
  isActive (run before (create c now h)) = false ->
  viewOf (run (Start now' env :: after) (run before (create c now h)))
  = viewOf (run (Start now' env :: after) (create c now h))
  /\ trace (Start now' env :: after) (run before (create c now h))
     = trace (Start now' env :: after) (create c now h).
Proof.
  set (w := run before (create c now h)). intros Hrun.
  assert (WellFormed w) as Hw by apply WellFormed_run, WellFormed_create.
  pose proof (WellFormed_create c now h) as Hw'.
  assert (config (self w) = config (self (create c now h))) as Hc
    by (unfold w; now rewrite run_config).
  destruct (start_afresh now' env w (create c now h) Hrun eq_refl Hc) as [Hv Hcalls].
  destruct (run_view after (fst (fst (start now' env w)))
              (fst (fst (start now' env (create c now h))))
              (WellFormed_apply w (Start now' env) Hw)
              (WellFormed_apply (create c now h) (Start now' env) Hw') Hv)
    as [Hv' Ht].
  cbn [run fold_left trace apply callsOf]. split; [exact Hv' | congruence].
Qed.

End Conduct.

(** * The average execution price *)

Module Prices.
Import JS TWAPStrategy Spec Numerals Rounding Engine Runs Orders.
Local Open Scope Q_scope.

(** ** No average without a filled order *)

Lemma unpriced_updateAverage st h :
  List.filter isFilledWithPrice (read h (TWAPState.orders st)) = [] ->
  updateAverageExecutionPrice st h = st.
Proof. intros H. unfold updateAverageExecutionPrice. now rewrite H. Qed.

Lemma unpriced_executeOrder env w :
  WellFormed w ->
  (List.filter isFilledWithPrice (ordersOf w) = [] ->
   TWAPState.averageExecutionPrice (state (self w)) = None) ->
  List.filter isFilledWithPrice (ordersOf (fst (fst (executeOrder env w)))) = [] ->
  TWAPState.averageExecutionPrice (state (self (fst (fst (executeOrder env w)))))
  = None.
Proof.
  intros Hw H.
  destruct (executeOrder_outcome env w) as
    [ | | | | | nominal price response _ _ _ _ _ _ ]; try assumption.
  - rewrite ordersOf_stop, state_stop. exact H.
  - rewrite ordersOf_foldResponse, decide_True by exact Hw.
    intros Hf. unfold foldResponse. cbn [self state].
    rewrite unpriced_updateAverage.
    + cbn [setAmounts TWAPState.averageExecutionPrice]. apply H.
      rewrite List.filter_app in Hf. now apply app_eq_nil in Hf as [Hf _].
    + cbn [setAmounts TWAPState.orders]. rewrite read_push_same.
      rewrite decide_True by exact Hw. exact Hf.
Qed.

Lemma unpriced_apply w op :
  WellFormed w ->
  (List.filter isFilledWithPrice (ordersOf w) = [] ->
   TWAPState.averageExecutionPrice (state (self w)) = None) ->
  List.filter isFilledWithPrice (ordersOf (apply w op)) = [] ->
  TWAPState.averageExecutionPrice (state (self (apply w op))) = None.
Proof.
  intros Hw H. destruct op as [now env | env |]; cbn [apply].
  - destruct (start_cases now env w) as [[_ ->] | [[_ [e ->]] | [_ ->]]];
      cbn [fst]; [assumption | reflexivity |].
    apply (unpriced_executeOrder env (restarted now w));
      [apply WellFormed_restarted | reflexivity].
  - now apply unpriced_executeOrder.
  - rewrite ordersOf_stop, state_stop. exact H.
Qed.

Lemma unpriced_run ops : forall w,
  WellFormed w ->
  (List.filter isFilledWithPrice (ordersOf w) = [] ->
   TWAPState.averageExecutionPrice (state (self w)) = None) ->
  List.filter isFilledWithPrice (ordersOf (run ops w)) = [] ->
  TWAPState.averageExecutionPrice (state (self (run ops w))) = None.
Proof.
  induction ops as [| op ops IH]; intros w Hw H; [assumption |].
  cbn [run fold_left]. apply IH; [now apply WellFormed_apply |].
  now apply unpriced_apply.
Qed.

(** X25.  An average execution price is reported only when an order has
    been filled with a size and a price: in every state that the engine
    reaches after its construction, if no record of the history has the
    status filled together with a filledSize and an averagePrice, then
    averageExecutionPrice is undefined, and the summary of logFinalStats
    has no line for the average price. *)
Theorem average_needs_a_filled_order c now h ops :
  List.filter isFilledWithPrice (ordersOf (run ops (create c now h))) = [] ->
  TWAPState.averageExecutionPrice (getState (run ops (create c now h))) = None
  /\ averagePrice (logFinalStats (run ops (create c now h))) = None.
Proof.
  intros H.
  assert (TWAPState.averageExecutionPrice (state (self (run ops (create c now h))))
          = None) as E.
  { apply unpriced_run; [apply WellFormed_create | reflexivity | exact H]. }
  split; [exact E |].
  unfold logFinalStats. cbn [averagePrice]. now rewrite E.
Qed.

(** ** The average lies between the prices *)



End Prices.

(** * The theorems on the scenarios *)

Module Examples.
Import JS BluefinClient TWAPStrategy Spec Rounding Engine Scenarios Cases.
Import Runs Orders Lifecycle Configuration Reports Requests Keystores Conduct.
Import Prices.
Local Open Scope Q_scope.

(** X1 on the hourly engine after its stop. *)
Lemma stopped_hourly_is_inert :
  isActive hourlyStopped = false
  /\ startFree afterStop = true
  /\ run afterStop hourlyStopped = hourlyStopped
  /\ trace afterStop hourlyStopped = [].
Proof.
  assert (isActive hourlyStopped = false) as H1 by evaluate.
  assert (startFree afterStop = true) as H2 by evaluate.
  destruct (stopped_engine_is_inert hourlyStopped afterStop H1 H2) as [E1 E2].
  repeat (split; [assumption |]). assumption.
Defined.

(** X2 on a run of the hourly configuration. *)
Lemma history_of_sixty_then_forty :
  startFree sixtyThenForty = true
  /\ exists l,
       ordersOf (run ([Start 0 sixty] ++ sixtyThenForty) (create hourly 0 []))
       = ordersOf (run [Start 0 sixty] (create hourly 0 [])) ++ l
       /\ (length l <= length sixtyThenForty)%nat
       /\ Forall (recorded sixtyThenForty) l.
Proof.
  assert (startFree sixtyThenForty = true) as H1 by evaluate.
  split; [exact H1 |].
  exact (history_is_append_only hourly 0 [] [Start 0 sixty] sixtyThenForty H1).
Defined.

(** X3 on the hourly engine started again after its stop. *)
Lemma restart_of_hourly :
  isActive (run hourlyRun (create hourly 0 [])) = false
  /\ read (store (run (Start 5000 sixty :: [Tick forty])
                      (run hourlyRun (create hourly 0 []))))
          (TWAPState.orders (getState (run hourlyRun (create hourly 0 []))))
     = ordersOf (run hourlyRun (create hourly 0 [])).
Proof.
  assert (isActive (run hourlyRun (create hourly 0 [])) = false) as H1 by evaluate.
  destruct (restart_leaves_old_history hourly 0 [] hourlyRun 5000 sixty
              [Tick forty] H1) as [E1 _].
  split; assumption.
Defined.

Lemma first_hourly_order :
  In (PlaceOrder hourlyOrder)
     (snd (fst (executeOrder sixty (started hourly)))).
Proof.
  value_of (snd (fst (executeOrder sixty (started hourly)))).
  right. left. reflexivity.
Qed.



(** X7 on an engine with 5 to buy and a nominal order size of 10. *)
Lemma five_ordered_then_stop :
  orderAnswered (answered (answer "pending" None None))
                (started (single "5" "10" "100"))
  /\ remainingOf (started (single "5" "10" "100")) = Num 5
  /\ on_grid 8 5
  /\ TWAPState.remainingAmount
       (state (self (fst (fst (executeOrder (answered (answer "pending" None None))
                                            (started (single "5" "10" "100")))))))
     = "0.00000000"
  /\ isActive (fst (fst (executeOrder (answered (answer "pending" None None))
                                      (started (single "5" "10" "100"))))) = true.
Proof.
  set (env := answered (answer "pending" None None)).
  set (w := started (single "5" "10" "100")).
  assert (orderAnswered env w) as H1.
  { split; [evaluate |]. split; eexists; reflexivity. }
  assert (placement env = Ok (answer "pending" None None)) as H2 by reflexivity.
  assert (truthy_opt (BluefinOrderResponse.filledSize (answer "pending" None None))
          = false) as H3 by reflexivity.
  assert (calculateOrderSize (config (self w)) = Ok "10") as H4 by evaluate.
  assert (parseFloat "10" = Num 10) as H5 by evaluate.
  assert (remainingOf w = Num 5) as H6 by evaluate.
  assert (on_grid 8 5) as H7 by (exists 500000000%Z; evaluate).
  assert (5 <= 10) as H8 by evaluate.
  destruct (whole_remainder_then_stop env w "10" 10 5 (answer "pending" None None)
              H1 H2 H3 H4 H5 H6 H7 H8) as (E1 & E2 & _).
  repeat (split; [assumption |]). assumption.
Defined.

(** X8 on the hourly engine, at a step when the hour has passed. *)
Lemma hourly_ends_after_an_hour :
  TWAPConfig.duration hourly = Num 3600
  /\ exists t0 : Z,
       TWAPState.startTime (getState (run [Start 0 sixty] (create hourly 0 [])))
       = of_Z t0
       /\ TWAPState.endTime (getState (run [Start 0 sixty] (create hourly 0 [])))
          = Num (inject_Z t0 + 3600 * 1000)
       /\ (inject_Z t0 + 3600 * 1000 <= inject_Z (clockAtCheck late) ->
           snd (fst (executeOrder late (run [Start 0 sixty] (create hourly 0 [])))) = []
           /\ isActive (fst (fst (executeOrder late
                                    (run [Start 0 sixty] (create hourly 0 [])))))
              = false
           /\ state (self (fst (fst (executeOrder late
                                       (run [Start 0 sixty] (create hourly 0 []))))))
              = state (self (run [Start 0 sixty] (create hourly 0 [])))
           /\ ordersOf (fst (fst (executeOrder late
                                    (run [Start 0 sixty] (create hourly 0 [])))))
              = ordersOf (run [Start 0 sixty] (create hourly 0 []))).
Proof.
  assert (TWAPConfig.duration hourly = Num 3600) as H1 by reflexivity.
  split; [exact H1 |].
  exact (no_call_after_end_time hourly 3600 0 [] [Start 0 sixty] late H1).
Defined.

(** X9 on a configuration of 60 seconds with an interval of 300. *)
Lemma inverted_start_fails :
  isActive (create inverted 0 []) = false
  /\ start 0 sixty (create inverted 0 [])
     = (restarted 0 (create inverted 0 []), [],
        Throw "Duration must be greater than interval")
  /\ isActive (restarted 0 (create inverted 0 [])) = true
  /\ intervalTimer (self (restarted 0 (create inverted 0 []))) = None.
Proof.
  assert (isActive (create inverted 0 []) = false) as H1 by reflexivity.
  assert (TWAPConfig.duration (config (self (create inverted 0 []))) = Num 60)
    as H2 by reflexivity.
  assert (TWAPConfig.interval (config (self (create inverted 0 []))) = Num 300)
    as H3 by reflexivity.
  assert (0 <= 60) as H4 by evaluate.
  assert (60 < 300) as H5 by evaluate.
  destruct (failed_start_leaves_engine_running (create inverted 0 []) 60 300 0
              sixty H1 H2 H3 H4 H5) as (E1 & E2 & E3 & _).
  repeat (split; [assumption |]). assumption.
Defined.

Lemma dust_valid : Valid dust dustFigures.
Proof. apply single_valid; evaluate. Qed.

(** X10 on a total amount of 0.00005 with orders of 0.001 at least. *)
Lemma dust_leaves_timer_armed :
  Valid dust dustFigures
  /\ total dustFigures <= 1 # 10000
  /\ 1 # 10000 < smallest dustFigures
  /\ startFree afterStop = true
  /\ snd (fst (start 0 sixty (create dust 0 []))) = []
  /\ isActive (fst (fst (start 0 sixty (create dust 0 [])))) = false
  /\ intervalTimer (self (fst (fst (start 0 sixty (create dust 0 [])))))
     = Some (period dust)
  /\ run afterStop (fst (fst (start 0 sixty (create dust 0 []))))
     = fst (fst (start 0 sixty (create dust 0 []))).
Proof.
  assert (total dustFigures <= 1 # 10000) as H1 by evaluate.
  assert (1 # 10000 < smallest dustFigures) as H2 by evaluate.
  assert (config (self (create dust 0 [])) = dust) as H3 by reflexivity.
  assert (isActive (create dust 0 []) = false) as H4 by reflexivity.
  assert (startFree afterStop = true) as H5 by evaluate.
  destruct (early_stop_leaves_timer_armed dust dustFigures 0 sixty
              (create dust 0 []) afterStop dust_valid H1 H2 H3 H4 H5)
    as (_ & E2 & E3 & E4 & E5).
  split; [exact dust_valid |].
  repeat (split; [assumption |]). assumption.
Defined.

(** X11 on the hourly configuration. *)
Lemma hourly_validation :
  parseFloat (TWAPConfig.totalAmount hourly) = Num (total hourlyFigures)
  /\ parseFloat (TWAPConfig.minOrderSize hourly) = Num (smallest hourlyFigures)
  /\ parseFloat (TWAPConfig.maxOrderSize hourly) = Num (largest hourlyFigures)
  /\ (validateTWAPConfig hourly = Ok tt <-> Valid hourly hourlyFigures).
Proof.
  assert (parseFloat (TWAPConfig.totalAmount hourly) = Num (total hourlyFigures))
    as H1 by evaluate.
  assert (TWAPConfig.duration hourly = Num (seconds hourlyFigures))
    as H2 by reflexivity.
  assert (TWAPConfig.interval hourly = Num (every hourlyFigures))
    as H3 by reflexivity.
  assert (TWAPConfig.slippageTolerance hourly = Num (slippage hourlyFigures))
    as H4 by reflexivity.
  assert (parseFloat (TWAPConfig.minOrderSize hourly) = Num (smallest hourlyFigures))
    as H5 by evaluate.
  assert (parseFloat (TWAPConfig.maxOrderSize hourly) = Num (largest hourlyFigures))
    as H6 by evaluate.
  repeat (split; [assumption |]).
  exact (validation_accepts_valid_only hourly hourlyFigures H1 H2 H3 H4 H5 H6).
Defined.

(** X12 on the hourly configuration with the total amount 'all'. *)
Lemma total_all_is_accepted :
  Valid hourly hourlyFigures
  /\ truthy "all" = true
  /\ parseFloat "all" = NaN
  /\ inject_Z (clockAtCheck sixty) < inject_Z 0 + seconds hourlyFigures * 1000
  /\ validateTWAPConfig (withTotalAmount hourly "all") = Ok tt
  /\ exists p,
       snd (fst (start 0 sixty (create (withTotalAmount hourly "all") 0 [])))
       = [GetMarketPrice (TWAPConfig.pair hourly); PlaceOrder p]
       /\ BluefinOrderParams.size p = "NaN"
       /\ forall clock api,
            placeOrder clock api p = (Throw "Invalid amount: NaN", []).
Proof.
  assert (truthy "all" = true) as H1 by reflexivity.
  assert (parseFloat "all" = NaN) as H2 by evaluate.
  assert (marketPrice sixty = Ok "1") as H3 by reflexivity.
  assert (inject_Z (clockAtCheck sixty) < inject_Z 0 + seconds hourlyFigures * 1000)
    as H4 by evaluate.
  destruct (total_that_is_no_number hourly hourlyFigures "all" 0 [] 0 sixty "1"
              hourly_valid H1 H2 H3 H4) as [E1 E2].
  split; [exact hourly_valid |].
  repeat (split; [assumption |]). assumption.
Defined.

(** X14 on the hourly run. *)
Lemma hourly_completion_is_not_seen :
  validateTWAPConfig hourly = Ok tt
  /\ BuybackBot.seesCompletion (run hourlyRun (create hourly 0 [])) = false.
Proof.
  assert (validateTWAPConfig hourly = Ok tt) as H1 by evaluate.
  destruct (monitor_never_sees_completion hourly 0 [] hourlyRun H1) as [E1 _].
  split; assumption.
Defined.

Lemma unavailable_always k :
  exists status errorText,
    unavailable k = NotOk status errorText /\ serverError status = true.
Proof. exists 503%Z, "Service Unavailable". split; reflexivity. Qed.

(** X16 on a venue that answers 503 to every request. *)
Lemma unavailable_venue_is_retried :
  orderPayload fiveOrder = Ok fivePayload
  /\ getMarketPrice unavailable "ALKIMI/USDC"
     = (Throw "Bluefin API error: 503 Service Unavailable",
        [Call 0; Sleep 1000; Call 1; Sleep 2000; Call 2])
  /\ placeOrder (fun _ => 0%Z) unavailable fiveOrder
     = (Throw "Bluefin API error: 503 Service Unavailable",
        [Call 0; Sleep 1000; Call 1; Sleep 2000; Call 2]).
Proof.
  assert (orderPayload fiveOrder = Ok fivePayload) as H1 by evaluate.
  destruct (server_errors_are_retried (fun _ => 0%Z) unavailable "ALKIMI/USDC"
              "order_1" fiveOrder fivePayload unavailable_always H1)
    as (e & E0 & E1 & _ & _ & E4 & E5).
  assert (e = "Bluefin API error: 503 Service Unavailable") as ->.
  { clear - E0. vm_compute in E0. now injection E0 as <-. }
  rewrite E5 in E1, E4.
  repeat (split; [assumption |]). assumption.
Defined.


(** X20 on a keystore with an encrypted key, with its password. *)
Lemma encrypted_keystore_is_refused :
  SuiWalletManager.parseJSON railway "{}" = Ok encrypted
  /\ truthy_opt (SuiWalletManager.privateKey encrypted) = false
  /\ SuiWalletManager.loadKeystore railway "./wallet.keystore" (Some "secret")
     = Throw "Failed to load keystore: Encrypted keystore decryption not yet implemented. Please use unencrypted keystore format.".
Proof.
  assert (SuiWalletManager.parseJSON railway "{}" = Ok encrypted) as H1
    by reflexivity.
  assert (truthy_opt (SuiWalletManager.privateKey encrypted) = false) as H2
    by reflexivity.
  split; [exact H1 |]. split; [exact H2 |].
  exact (keystore_needs_plain_private_key railway "./wallet.keystore"
           (Some "secret") "{}" encrypted eq_refl H1 H2).
Defined.

(** X21 on the hourly engine after its run: a second start. *)
Lemma hourly_never_throws :
  Valid hourly hourlyFigures
  /\ resultOf (run hourlyRun (create hourly 0 [])) (Start 5000 sixty) = Ok tt.
Proof.
  split; [exact hourly_valid |].
  destruct (valid_engine_never_throws hourly hourlyFigures 0 [] hourlyRun
              (Start 5000 sixty) hourly_valid) as [E _].
  exact E.
Defined.

(** X22 on the first order of the hourly configuration. *)
Lemma hourly_order_is_convertible :
  Valid hourly hourlyFigures
  /\ remainingOf (started hourly) = Num 1000
  /\ In (PlaceOrder hourlyOrder) (snd (fst (executeOrder sixty (started hourly))))
  /\ (exists payload, orderPayload hourlyOrder = Ok payload)
  /\ snd (placeOrder (fun _ => 0%Z) unavailable hourlyOrder) <> [].
Proof.
  assert (config (self (started hourly)) = hourly) as H1 by evaluate.
  assert (remainingOf (started hourly) = Num 1000) as H2 by evaluate.
  assert (marketPrice sixty = Ok "1") as H3 by evaluate.
  assert (parseFloat "1" = Num 1) as H4 by evaluate.
  assert (0 <= 1) as H5 by evaluate.
  destruct (engine_orders_are_convertible hourly hourlyFigures sixty
              (started hourly) 1000 "1" 1 hourlyOrder (fun _ => 0%Z) unavailable
              hourly_valid H1 H2 H3 H4 H5 first_hourly_order) as [E1 E2].
  split; [exact hourly_valid |]. split; [exact H2 |].
  split; [exact first_hourly_order |]. split; assumption.
Defined.

(** X23 on the hourly engine started again after its stop. *)
Lemma hourly_begins_again :
  isActive (run hourlyRun (create hourly 0 [])) = false
  /\ viewOf (run (Start 5000 sixty :: [Tick forty])
                 (run hourlyRun (create hourly 0 [])))
     = viewOf (run (Start 5000 sixty :: [Tick forty]) (create hourly 0 [])).
Proof.
  assert (isActive (run hourlyRun (create hourly 0 [])) = false) as H1 by evaluate.
  destruct (restart_begins_again hourly 0 [] hourlyRun 5000 sixty [Tick forty] H1)
    as [E _].
  split; assumption.
Defined.

(** X25 on a run whose only order is pending. *)
Lemma pending_run_has_no_average :
  List.filter isFilledWithPrice (ordersOf (run pendingRun (create hourly 0 []))) = []
  /\ TWAPState.averageExecutionPrice (getState (run pendingRun (create hourly 0 [])))
     = None.
Proof.
  assert (List.filter isFilledWithPrice
            (ordersOf (run pendingRun (create hourly 0 []))) = []) as H1 by evaluate.
  destruct (average_needs_a_filled_order hourly 0 [] pendingRun H1) as [E _].
  split; assumption.
Defined.


End Examples.
